(** * shared-services: company detection, Resend e-mail dispatch, magic-link profiles

    A shallow embedding of the Python sources

    - [shared_services/company_detection/detector.py]
    - [shared_services/email/resend_service.py]
    - [shared_services/supabase_auth/magic_link_old.py]

    followed by the properties proved about them.

    Conventions of the embedding.

    - A Python [str] is the list of its Unicode code points ([list N]);
      literals are written [u "..."].
    - A Python [float] is a binary64 primitive float; an [int] is a [Z].
    - An insertion-ordered [dict] whose order the code relies on is an
      association list; the other dicts and sets are [gmap]s and [gset]s.
    - Code that can raise returns an [outcome]; code that also mutates
      [self] lives in a state-and-exception monad. *)

From Stdlib Require Import ZArith NArith Ascii String Floats.
From stdpp Require Import gmap strings list pretty.

Set Warnings "-inexact-float,-register-all".
Set Default Proof Using "Type".

Abbreviation str := (list N).

(** ** Exceptions *)

Inductive outcome (E A : Type) : Type :=
| Ok (a : A)
| Raise (e : E).
Arguments Ok {E A} a.
Arguments Raise {E A} e.

#[global] Instance outcome_ret {E} : MRet (outcome E) := λ A a, Ok a.
#[global] Instance outcome_bind {E} : MBind (outcome E) := λ A B f m,
  match m with
  | Ok a => f a
  | Raise e => Raise e
  end.

(** ** Programs that mutate a state and may raise

    A method is a function from the state it runs in to what it returns or
    raises and the state it leaves; a raise keeps the mutations made before
    it. *)

Definition prog (S E A : Type) : Type := S → outcome E A * S.

#[global] Instance prog_ret {S E} : MRet (prog S E) := λ A a st, (Ok a, st).
#[global] Instance prog_bind {S E} : MBind (prog S E) := λ A B f m st,
  match m st with
  | (Ok a, st') => f a st'
  | (Raise e, st') => (Raise e, st')
  end.

Definition read {S E A} (f : S → A) : prog S E A := λ st, (Ok (f st), st).
Definition update {S E} (f : S → S) : prog S E unit := λ st, (Ok (), f st).
Definition lift {S E A} (o : outcome E A) : prog S E A := λ st, (o, st).

(** [try: body except Exception as e: handler e] *)
Definition try_except {S E A} (body : prog S E A) (handler : E → prog S E A)
  : prog S E A :=
  λ st,
    match body st with
    | (Ok a, st') => (Ok a, st')
    | (Raise e, st') => handler e st'
    end.

(** ** Python values

    What a [Dict[str, Any]] of these modules holds. *)

Inductive value :=
| VNone
| VBool (b : bool)
| VInt (z : Z)
| VStr (s : str)
| VBytes (b : list Byte.byte)
| VList (l : list value)
| VDict (d : gmap str value).

(** ** Python strings *)

Module PyStr.

(** The code points of an ASCII literal. *)
Definition u (x : string) : str := N_of_ascii <$> list_ascii_of_string x.

(** A one-character literal. *)
Definition chr (a : ascii) : N := N_of_ascii a.

Arguments u : simpl never.
Arguments chr : simpl never.

Definition in_range (lo hi : ascii) (c : N) : bool :=
  (chr lo <=? c)%N && (c <=? chr hi)%N.

(** [str.lower], [str.upper] and [str.capitalize].  The detector applies
    them to domain text only, whose characters the domain pattern confines
    to ASCII; on ASCII Python's case mappings are the ones below, and other
    code points are left alone here. *)
Definition lower_char (c : N) : N := if in_range "A" "Z" c then (c + 32)%N else c.
Definition upper_char (c : N) : N := if in_range "a" "z" c then (c - 32)%N else c.

Definition lower (s : str) : str := lower_char <$> s.
Definition upper (s : str) : str := upper_char <$> s.

Definition capitalize (s : str) : str :=
  match s with
  | [] => []
  | c :: s' => upper_char c :: lower s'
  end.

(** [s.startswith(x)], [s.endswith(x)] and [x in s]. *)
Definition startswith (s x : str) : bool := bool_decide (x `prefix_of` s).
Definition endswith (s x : str) : bool := bool_decide (x `suffix_of` s).

Fixpoint contains (x s : str) : bool :=
  startswith s x ||
  match s with
  | [] => false
  | _ :: s' => contains x s'
  end.

(** [s.replace(a, b)] for one-character [a] and [b]. *)
Definition replace (a b : N) (s : str) : str :=
  (λ c, if (c =? a)%N then b else c) <$> s.

(** The code points for which [str.isspace] holds; [strip()] and the
    argument-less [split()] use exactly these. *)
Definition is_space (c : N) : bool :=
  ((9 <=? c) && (c <=? 13) || (28 <=? c) && (c <=? 32) ||
   (c =? 133) || (c =? 160) || (c =? 5760) ||
   (8192 <=? c) && (c <=? 8202) || (c =? 8232) || (c =? 8233) ||
   (c =? 8239) || (c =? 8287) || (c =? 12288))%N.

Fixpoint lstrip (s : str) : str :=
  match s with
  | [] => []
  | c :: s' => if is_space c then lstrip s' else s
  end.

Definition rstrip (s : str) : str := rev (lstrip (rev s)).

(** [s.strip()] *)
Definition strip (s : str) : str := rstrip (lstrip s).

(** [s.split()]: the maximal runs of non-space characters.  [cur] is the
    run being read, last character first. *)
Definition flush (cur : str) : list str :=
  match cur with
  | [] => []
  | _ => [rev cur]
  end.

Fixpoint split_runs (cur s : str) : list str :=
  match s with
  | [] => flush cur
  | c :: s' =>
      if is_space c then flush cur ++ split_runs [] s'
      else split_runs (c :: cur) s'
  end.

Definition split (s : str) : list str := split_runs [] s.

(** [s.split(sep)] for a one-character [sep]: every occurrence cuts, empty
    pieces are kept, and the result is never empty. *)
Fixpoint split_sep (sep : N) (s : str) : list str :=
  match s with
  | [] => [[]]
  | c :: s' =>
      if (c =? sep)%N then [] :: split_sep sep s'
      else match split_sep sep s' with
           | [] => [[c]]
           | w :: ws => (c :: w) :: ws
           end
  end.

(** The truth value of an [Optional[str]]: [None] and [''] are false. *)
Definition truthy (o : option str) : bool :=
  match o with
  | Some (_ :: _) => true
  | _ => false
  end.

(** [sep.join(parts)] *)
Fixpoint join (sep : str) (parts : list str) : str :=
  match parts with
  | [] => []
  | [w] => w
  | w :: ws => w ++ sep ++ join sep ws
  end.

End PyStr.

(** ** The regular expressions of the detector *)

Module Re.
Import PyStr.

(** The class [[a-zA-Z0-9.-]]. *)
Definition is_domain_char (c : N) : bool :=
  in_range "a" "z" c || in_range "A" "Z" c || in_range "0" "9" c ||
  (c =? chr ".")%N || (c =? chr "-")%N.

(** The longest prefix of [s] inside a character class: a greedy [+] or [*]. *)
Fixpoint run (cls : N → bool) (s : str) : str :=
  match s with
  | [] => []
  | c :: s' => if cls c then c :: run cls s' else []
  end.

(** [re.search(r'@([a-zA-Z0-9.-]+)', email)], returning group 1 of the
    match: the search takes the leftmost ['@'] that a domain character
    follows, and the greedy class takes all the domain characters there. *)
Fixpoint search_domain (email : str) : option str :=
  match email with
  | [] => None
  | c :: rest =>
      if (c =? chr "@")%N then
        match run is_domain_char rest with
        | [] => search_domain rest
        | d => Some d
        end
      else search_domain rest
  end.

(** [re.sub(r'^(a1|a2|...)', '', s)]: without MULTILINE the anchor holds at
    the start of the string only, where the first alternative that is a
    prefix is removed. *)
Definition sub_prefix (alts : list str) (s : str) : str :=
  match list_find (λ a, a `prefix_of` s) alts with
  | Some (_, a) => drop (length a) s
  | None => s
  end.

(** An alternative of a group that is followed by [$]: a literal, or a
    literal followed by [.+]. *)
Inductive alt :=
| Lit (l : str)
| LitDotPlus (l : str).

(** [$] holds at the end of the string and before a newline that ends it. *)
Definition at_end (rest : str) : bool :=
  bool_decide (rest = []) || bool_decide (rest = [10%N]).

(** Matching one alternative and then [$] on [t]; the answer is the text
    the match leaves unconsumed.  [.] is any character but a newline, and
    the greedy [.+] can give nothing back: [$] fails before any character
    it would return. *)
Definition match_alt (a : alt) (t : str) : option str :=
  match a with
  | Lit l =>
      if startswith t l && at_end (drop (length l) t)
      then Some (drop (length l) t) else None
  | LitDotPlus l =>
      if startswith t l then
        let y := drop (length l) t in
        let x := run (λ c, negb (c =? 10)%N) y in
        let rest := drop (length x) y in
        if negb (bool_decide (x = [])) && at_end rest then Some rest else None
      else None
  end.

Fixpoint first_match (alts : list alt) (t : str) : option str :=
  match alts with
  | [] => None
  | a :: alts' =>
      match match_alt a t with
      | Some rest => Some rest
      | None => first_match alts' t
      end
  end.

(** The pattern [\.(a1|a2|...)$] tried at the start of [s]. *)
Definition match_here (alts : list alt) (s : str) : option str :=
  match s with
  | c :: t => if (c =? chr ".")%N then first_match alts t else None
  | [] => None
  end.

(** [re.sub(r'\.(a1|a2|...)$', '', s)]: the leftmost match is removed.
    What follows a match is empty or one newline, so the pattern (which
    needs a dot) cannot match again and the scan ends there. *)
Fixpoint sub_suffix (alts : list alt) (s : str) : str :=
  match match_here alts s with
  | Some rest => rest
  | None =>
      match s with
      | [] => []
      | c :: s' => c :: sub_suffix alts s'
      end
  end.

End Re.

(** ** Insertion-ordered dictionaries

    [CompanyDetectionService.cache] is a [dict] whose iteration order the
    eviction rule relies on: keys are kept in insertion order, most recent
    last. *)

Module PyDict.

Inductive exn :=
| KeyError (key : str)
| IndexError
| StopIteration.

Section dict.
Context {V : Type}.

Abbreviation dict := (list (str * V)).

(** [k in d] *)
Definition dict_contains (k : str) (d : dict) : bool :=
  bool_decide (k ∈ d.*1).

(** [d[k]] *)
Fixpoint dict_getitem (k : str) (d : dict) : outcome exn V :=
  match d with
  | [] => Raise (KeyError k)
  | (k', v) :: d' => if decide (k' = k) then Ok v else dict_getitem k d'
  end.

(** [d[k] = v]: a present key keeps its place, a new one goes last. *)
Fixpoint dict_setitem (k : str) (v : V) (d : dict) : dict :=
  match d with
  | [] => [(k, v)]
  | (k', v') :: d' =>
      if decide (k' = k) then (k', v) :: d'
      else (k', v') :: dict_setitem k v d'
  end.

(** [del d[k]] *)
Fixpoint dict_delitem (k : str) (d : dict) : outcome exn dict :=
  match d with
  | [] => Raise (KeyError k)
  | (k', v') :: d' =>
      if decide (k' = k) then Ok d'
      else d'' ← dict_delitem k d'; mret ((k', v') :: d'')
  end.

(** [next(iter(d))] *)
Definition dict_first_key (d : dict) : outcome exn str :=
  match d with
  | [] => Raise StopIteration
  | (k, _) :: _ => Ok k
  end.

End dict.

End PyDict.

(** ** company_detection/detector.py *)

Module Detector.
Import PyStr PyDict.

(** A Python number: [confidence] is annotated [float], and the code
    stores the [int] literal [0] or a [float] literal in it. *)
Inductive number :=
| Int (z : Z)
| Float (f : float).

Record CompanyDetectionResult := {
  company : option str;
  type : str;
  confidence : number;
  industry : option str;
  website : option str;
  metadata : option (gmap str str)
}.

(** A result object on the heap: its identity and its fields.  The service
    never assigns to a field of a result it has built. *)
Record object := {
  oid : nat;
  value : CompanyDetectionResult
}.

(** [self.metrics]: a dict created with these four keys, none of which is
    ever deleted.  [total_response_time] starts as the [int] [0] and only
    has floats added to it; it is kept as the float of the same value. *)
Record Metrics := {
  total_detections : Z;
  cache_hits : Z;
  total_response_time : float;
  cache_size : Z
}.

Record CompanyDetectionService := {
  cache : list (str * object);
  metrics : Metrics
}.

(** The state a call runs in: the service and the allocator's next fresh
    object identity. *)
Record State := {
  self : CompanyDetectionService;
  next_id : nat
}.

Abbreviation M := (prog State exn).

Definition on_self (f : CompanyDetectionService → CompanyDetectionService)
    (st : State) : State :=
  {| self := f (self st); next_id := next_id st |}.

(** A call of the dataclass constructor: a new object with a fresh identity. *)
Definition new_result (r : CompanyDetectionResult) : M object :=
  λ st, (Ok {| oid := next_id st; value := r |},
         {| self := self st; next_id := S (next_id st) |}).

Definition set_cache (c : list (str * object)) (s : CompanyDetectionService) :=
  {| cache := c; metrics := metrics s |}.

Definition set_metrics (f : Metrics → Metrics) (s : CompanyDetectionService) :=
  {| cache := cache s; metrics := f (metrics s) |}.

Definition set_total_detections (f : Z → Z) (m : Metrics) :=
  {| total_detections := f (total_detections m); cache_hits := cache_hits m;
     total_response_time := total_response_time m; cache_size := cache_size m |}.

Definition set_cache_hits (f : Z → Z) (m : Metrics) :=
  {| total_detections := total_detections m; cache_hits := f (cache_hits m);
     total_response_time := total_response_time m; cache_size := cache_size m |}.

Definition set_total_response_time (f : float → float) (m : Metrics) :=
  {| total_detections := total_detections m; cache_hits := cache_hits m;
     total_response_time := f (total_response_time m); cache_size := cache_size m |}.

Definition set_cache_size (f : Z → Z) (m : Metrics) :=
  {| total_detections := total_detections m; cache_hits := cache_hits m;
     total_response_time := total_response_time m; cache_size := f (cache_size m) |}.

(** [__init__] *)
Definition init : CompanyDetectionService := {|
  cache := [];
  metrics := {| total_detections := 0; cache_hits := 0;
                total_response_time := 0; cache_size := 0 |}
|}.

(** [self.personal_providers] and [self.corporate_info] are assigned once,
    in [__init__], and only read afterwards. *)
Definition personal_providers : gset str := list_to_set (u <$> [
  "gmail.com"; "yahoo.com"; "outlook.com"; "hotmail.com"; "icloud.com";
  "aol.com"; "protonmail.com"; "yandex.com"; "mail.ru"; "me.com";
  "live.com"; "msn.com"; "yahoo.co.uk"; "yahoo.ca"; "yahoo.fr";
  "googlemail.com"; "outlook.co.uk"; "btinternet.com"; "sky.com"
])%string.

Definition info (name industry : string) : gmap str str :=
  {[ u "name" := u name; u "industry" := u industry ]}.

Definition corporate_info : gmap str (gmap str str) := list_to_map [
  (u "microsoft.com", info "Microsoft" "Technology");
  (u "apple.com", info "Apple" "Technology");
  (u "google.com", info "Google" "Technology");
  (u "amazon.com", info "Amazon" "Technology");
  (u "meta.com", info "Meta" "Technology");
  (u "facebook.com", info "Facebook" "Technology");
  (u "tesla.com", info "Tesla" "Automotive");
  (u "netflix.com", info "Netflix" "Entertainment");
  (u "salesforce.com", info "Salesforce" "Technology");
  (u "oracle.com", info "Oracle" "Technology");
  (u "ibm.com", info "IBM" "Technology");
  (u "adobe.com", info "Adobe" "Technology");
  (u "shopify.com", info "Shopify" "E-commerce");
  (u "stripe.com", info "Stripe" "Financial Services");
  (u "anthropic.com", info "Anthropic" "AI/Technology");
  (u "openai.com", info "OpenAI" "AI/Technology")
].

Definition _get_personal_provider_name (domain : str) : str :=
  let providers : gmap str str := list_to_map [
    (u "gmail.com", u "Gmail");
    (u "yahoo.com", u "Yahoo");
    (u "outlook.com", u "Outlook");
    (u "hotmail.com", u "Hotmail");
    (u "icloud.com", u "iCloud");
    (u "aol.com", u "AOL")
  ] in
  default domain (providers !! domain).

Definition _extract_university_name (domain : str) : str :=
  let name := Re.sub_suffix
                [Re.Lit (u "edu"); Re.Lit (u "ac.uk"); Re.LitDotPlus (u "ac.")]
                domain in
  let name := replace (chr ".") (chr " ") name in
  let name := join (u " ") (capitalize <$> split name) in
  let mappings : gmap str str := list_to_map [
    (u "stanford", u "Stanford University");
    (u "mit", u "MIT");
    (u "harvard", u "Harvard University");
    (u "berkeley", u "UC Berkeley");
    (u "oxford", u "Oxford University");
    (u "cambridge", u "Cambridge University")
  ] in
  default (name ++ u " University") (mappings !! lower name).

Definition _extract_government_name (domain : str) : str :=
  if contains (u "nasa") domain then u "NASA"
  else if contains (u "state") domain then u "US State Department"
  else if contains (u "army") domain then u "US Army"
  else if contains (u "navy") domain then u "US Navy"
  else if contains (u "airforce") domain then u "US Air Force"
  else
    let name := Re.sub_suffix [Re.Lit (u "gov"); Re.Lit (u "mil")] domain in
    upper (replace (chr ".") (chr " ") name).

(** [s[0]] *)
Definition first_char (s : str) : outcome exn N :=
  match s with
  | [] => Raise IndexError
  | c :: _ => Ok c
  end.

Definition _extract_company_from_domain (domain : str) : outcome exn (option str) :=
  let clean_domain := Re.sub_prefix [u "www."; u "mail."; u "email."] domain in
  let clean_domain :=
    Re.sub_suffix (Re.Lit ∘ u <$> ["com"; "org"; "net"; "co"; "io"; "ai"; "tech"; "inc"]%string)
                  clean_domain in
  let clean_domain :=
    Re.sub_suffix (Re.Lit ∘ u <$> ["co.uk"; "com.au"; "co.in"]%string) clean_domain in
  if decide (length clean_domain < 2) then mret None
  else
    c ← first_char clean_domain;
    mret (Some (upper [c] ++ drop 1 clean_domain)).

Definition _infer_industry (domain : str) : option str :=
  if contains (u "bank") domain || contains (u "finance") domain
  then Some (u "Financial Services")
  else if contains (u "tech") domain || contains (u "ai") domain
          || contains (u "software") domain
  then Some (u "Technology")
  else if contains (u "health") domain || contains (u "medical") domain
          || contains (u "pharma") domain
  then Some (u "Healthcare")
  else if contains (u "consulting") domain
  then Some (u "Consulting")
  else if contains (u "law") domain || contains (u "legal") domain
  then Some (u "Legal Services")
  else None.

(** [_cache_result].  [response_time] is the float the method computes from
    the two clock readings, [(datetime.now() - start_time).total_seconds() * 1000];
    the clock is outside the program, so the caller of the model supplies it. *)
Definition _cache_result (email : str) (result : object) (response_time : float)
  : M object :=
  _ ← update (on_self (set_metrics (set_total_detections (λ n, n + 1)%Z)));
  _ ← update (on_self (set_metrics
                (set_total_response_time (λ t, t + response_time)%float)));
  n ← read (λ st, length (cache (self st)));
  _ ← update (on_self (set_metrics (set_cache_size (λ _, Z.of_nat n))));
  n ← read (λ st, length (cache (self st)));
  _ ← (if decide (1000 < n) then
         c ← read (cache ∘ self);
         first_key ← lift (dict_first_key c);
         c ← read (cache ∘ self);
         c' ← lift (dict_delitem first_key c);
         update (on_self (set_cache c'))
       else mret ());
  _ ← update (on_self (λ s, set_cache (dict_setitem email result (cache s)) s));
  mret result.

(** The two conditions on the lower-cased domain that are written inline. *)
Definition is_educational (domain : str) : bool :=
  endswith domain (u ".edu") || contains (u ".edu.") domain ||
  endswith domain (u ".ac.uk") || contains (u ".ac.") domain.

Definition is_government (domain : str) : bool :=
  endswith domain (u ".gov") || endswith domain (u ".mil") ||
  contains (u ".gov.") domain.

Definition detect_from_email (response_time : float) (email : str) : M object :=
  hit ← read (λ st, dict_contains email (cache (self st)));
  if hit : bool then
    _ ← update (on_self (set_metrics (set_cache_hits (λ n, n + 1)%Z)));
    _ ← update (on_self (set_metrics (set_total_detections (λ n, n + 1)%Z)));
    c ← read (cache ∘ self);
    lift (dict_getitem email c)
  else
    match Re.search_domain email with
    | None =>
        result ← new_result {|
          company := None; type := u "unknown"; confidence := Int 0;
          industry := None; website := None; metadata := None |};
        _cache_result email result response_time
    | Some group1 =>
        let domain := lower group1 in
        if bool_decide (domain ∈ personal_providers) then
          result ← new_result {|
            company := Some (_get_personal_provider_name domain);
            type := u "personal"; confidence := Float 1.0;
            industry := None; website := None;
            metadata := Some {[ u "provider" := domain ]} |};
          _cache_result email result response_time
        else if is_educational domain then
          result ← new_result {|
            company := Some (_extract_university_name domain);
            type := u "educational"; confidence := Float 0.9;
            industry := Some (u "Education"); website := Some domain;
            metadata := None |};
          _cache_result email result response_time
        else if is_government domain then
          result ← new_result {|
            company := Some (_extract_government_name domain);
            type := u "government"; confidence := Float 0.9;
            industry := Some (u "Government"); website := Some domain;
            metadata := None |};
          _cache_result email result response_time
        else
          match corporate_info !! domain with
          | Some info =>
              name ← lift (from_option Ok (Raise (KeyError (u "name")))
                             (info !! u "name"));
              result ← new_result {|
                company := Some name;
                type := u "corporate"; confidence := Float 0.8;
                industry := info !! u "industry"; website := Some domain;
                metadata := None |};
              _cache_result email result response_time
          | None =>
              extracted_name ← lift (_extract_company_from_domain domain);
              result ← new_result {|
                company := extracted_name;
                type := u "corporate";
                confidence := if truthy extracted_name then Float 0.6 else Float 0.2;
                industry := _infer_industry domain;
                website := if truthy extracted_name then Some domain else None;
                metadata := None |};
              _cache_result email result response_time
          end
    end.

(** [clear_cache] *)
Definition clear_cache : M unit :=
  _ ← update (on_self (set_cache []));
  update (on_self (set_metrics (set_cache_size (λ _, 0%Z)))).

(** *** Derived notions used to state the properties *)

(** The rules of [detect_from_email] below the cache check, read as a
    function of the e-mail alone: what the constructor is called with.
    [detect_miss] shows that this is what a call that misses the cache
    builds and stores. *)
Definition classify (email : str) : outcome exn CompanyDetectionResult :=
  match Re.search_domain email with
  | None =>
      mret {| company := None; type := u "unknown"; confidence := Int 0;
              industry := None; website := None; metadata := None |}
  | Some group1 =>
      let domain := lower group1 in
      if bool_decide (domain ∈ personal_providers) then
        mret {| company := Some (_get_personal_provider_name domain);
                type := u "personal"; confidence := Float 1.0;
                industry := None; website := None;
                metadata := Some {[ u "provider" := domain ]} |}
      else if is_educational domain then
        mret {| company := Some (_extract_university_name domain);
                type := u "educational"; confidence := Float 0.9;
                industry := Some (u "Education"); website := Some domain;
                metadata := None |}
      else if is_government domain then
        mret {| company := Some (_extract_government_name domain);
                type := u "government"; confidence := Float 0.9;
                industry := Some (u "Government"); website := Some domain;
                metadata := None |}
      else
        match corporate_info !! domain with
        | Some info =>
            name ← from_option Ok (Raise (KeyError (u "name"))) (info !! u "name");
            mret {| company := Some name;
                    type := u "corporate"; confidence := Float 0.8;
                    industry := info !! u "industry"; website := Some domain;
                    metadata := None |}
        | None =>
            extracted_name ← _extract_company_from_domain domain;
            mret {| company := extracted_name;
                    type := u "corporate";
                    confidence := if truthy extracted_name then Float 0.6 else Float 0.2;
                    industry := _infer_industry domain;
                    website := if truthy extracted_name then Some domain else None;
                    metadata := None |}
        end
  end.

(** A newly constructed service, whatever the allocator has handed out. *)
Definition fresh (n : nat) : State := {| self := init; next_id := n |}.

(** The states a service goes through: it is constructed, and then its
    methods are called. *)
Inductive reachable : State → Prop :=
| reachable_fresh n : reachable (fresh n)
| reachable_detect st response_time email r st' :
    reachable st →
    detect_from_email response_time email st = (r, st') →
    reachable st'
| reachable_clear st r st' :
    reachable st →
    clear_cache st = (r, st') →
    reachable st'.

(** The values the rules give to [confidence]. *)
Definition confidence_values : list number :=
  [Int 0; Float 0.2; Float 0.6; Float 0.8; Float 0.9; Float 1.0].

(** A number in the closed interval from 0 to 1, by Python's comparisons. *)
Definition in_unit_interval (x : number) : bool :=
  match x with
  | Int z => (0 <=? z)%Z && (z <=? 1)%Z
  | Float f => (0 <=? f)%float && (f <=? 1)%float
  end.

(** One call of [detect_from_email] per e-mail, in order. *)
Fixpoint detect_all (response_time : float) (emails : list str) (st : State) : State :=
  match emails with
  | [] => st
  | email :: emails' =>
      detect_all response_time emails' (detect_from_email response_time email st).2
  end.

(** The [n]-th address of a run of distinct ones: [user0@example.com],
    [user1@example.com], ... *)
Definition nth_email (n : nat) : str :=
  u "user" ++ u (pretty n) ++ u "@example.com".

End Detector.

(** ** email/resend_service.py *)

Module Resend.
Import PyStr.

Record EmailAttachment := {
  filename : str;
  content : list Byte.byte;
  content_type : str
}.

Record EmailResult := {
  success : bool;
  message_id : option str;
  error : option str
}.

Record ResendService := {
  api_key : str;
  from_email : str
}.

(** [to: str | List[str]] *)
Inductive recipients :=
| One (to : str)
| Many (to : list str).

(** An instance of [Exception], seen through [str(e)], which is all the
    handler uses. *)
Record exception := { message : str }.

(** What a call works on: the service object, the requests made to
    [resend.Emails.send] so far (oldest first) and the lines written
    through [logger.error]. *)
Record World := {
  service : ResendService;
  requests : list (gmap str value);
  log : list str
}.

Abbreviation R := (prog World exception).

Definition logger_error (line : str) : R unit :=
  update (λ w, {| service := service w; requests := requests w;
                  log := log w ++ [line] |}).

(** The truth values of an optional list and of an optional dict. *)
Definition truthy_list {A} (o : option (list A)) : bool :=
  match o with
  | Some (_ :: _) => true
  | _ => false
  end.

Definition truthy_dict (o : option (gmap str str)) : bool :=
  match o with
  | Some d => negb (bool_decide (d = ∅))
  | None => false
  end.

Definition attachment_dict (att : EmailAttachment) : value :=
  VDict {[ u "filename" := VStr (filename att);
           u "content" := VBytes (content att);
           u "content_type" := VStr (content_type att) ]}.

Section provider.

(** The transactional-email provider: what [resend.Emails.send] does
    with a request, which is to return a response dict or to raise. *)
Variable Emails_send : gmap str value → outcome exception (gmap str str).

Definition resend_Emails_send (params : gmap str value) : R (gmap str str) :=
  λ w, (Emails_send params,
        {| service := service w; requests := requests w ++ [params];
           log := log w |}).

Definition send_email
    (to : recipients) (subject : str)
    (html text from_email reply_to : option str)
    (attachments : option (list EmailAttachment))
    (tags : option (gmap str str)) : R EmailResult :=
  try_except
    (let to := match to with One a => [a] | Many l => l end in
     self_from_email ← read (λ w, Resend.from_email (service w));
     let params : gmap str value :=
       {[ u "from" := VStr (if truthy from_email
                            then default [] from_email else self_from_email);
          u "to" := VList (VStr <$> to);
          u "subject" := VStr subject ]} in
     let params :=
       if truthy html then <[ u "html" := VStr (default [] html) ]> params
       else params in
     let params :=
       if truthy text then <[ u "text" := VStr (default [] text) ]> params
       else params in
     if negb (truthy html) && negb (truthy text) then
       mret {| success := false; message_id := None;
               error := Some (u "Either HTML or text content is required") |}
     else
       let params :=
         if truthy reply_to
         then <[ u "reply_to" := VStr (default [] reply_to) ]> params
         else params in
       let params :=
         if truthy_dict tags
         then <[ u "tags" := VDict (VStr <$> default ∅ tags) ]> params
         else params in
       let params :=
         if truthy_list attachments
         then <[ u "attachments" :=
                   VList (attachment_dict <$> default [] attachments) ]> params
         else params in
       response ← resend_Emails_send params;
       mret {| success := true; message_id := response !! u "id";
               error := None |})
    (λ e,
       _ ← logger_error (u "Failed to send email: " ++ message e);
       mret {| success := false; message_id := None;
               error := Some (message e) |}).

End provider.

End Resend.

(** ** supabase_auth/magic_link_old.py *)

Module MagicLink.
Import PyStr.

(** Modelled from the spec: the [User] model of [db.models] is not among
    the sources.  The spec gives a profile an external-auth user
    identifier, first and last name, e-mail and timestamps; the fields are
    those [magic_link_old.py] reads and writes.  A timestamp is a number
    of microseconds. *)
Record User := {
  email : str;
  auth_user_id : str;
  first_name : option str;
  last_name : option str;
  created_at : Z;
  updated_at : Z
}.

(** What the database does during one call of [update_profile]: the
    [users] table, and which of the session's calls raise. *)
Record Session := {
  users : list User;
  query_raises : bool;
  commit_raises : bool;
  refresh_raises : bool
}.

(** What can go wrong inside the [try]: a call of the database session
    raises, or [.strip().split(" ")] is applied to something that is not
    a [str]. *)
Inductive exn :=
| DatabaseError
| NotAString.

(** The dict [update_profile] returns, by its keys. *)
Record response := {
  success : bool;
  profile : option User;
  error : option str
}.

Definition set_users (us : list User) (db : Session) : Session :=
  {| users := us; query_raises := query_raises db;
     commit_raises := commit_raises db; refresh_raises := refresh_raises db |}.

Abbreviation D := (prog Session exn).

(** [db.query(User).filter(User.auth_user_id == user_id).first()]: the
    first row with that identifier, with its place in the table. *)
Definition query_first (user_id : str) : D (option (nat * User)) :=
  λ db,
    if query_raises db then (Raise DatabaseError, db)
    else (Ok (list_find (λ r, auth_user_id r = user_id) (users db)), db).

(** [updates["name"].strip().split(" ")] *)
Definition name_parts_of (v : value) : outcome exn (list str) :=
  match v with
  | VStr name => Ok (split_sep (chr " ") (strip name))
  | _ => Raise NotAString
  end.

Definition set_first_name (x : option str) (user : User) : User :=
  {| email := email user; auth_user_id := auth_user_id user;
     first_name := x; last_name := last_name user;
     created_at := created_at user; updated_at := updated_at user |}.

Definition set_last_name (x : option str) (user : User) : User :=
  {| email := email user; auth_user_id := auth_user_id user;
     first_name := first_name user; last_name := x;
     created_at := created_at user; updated_at := updated_at user |}.

Definition set_updated_at (now : Z) (user : User) : User :=
  {| email := email user; auth_user_id := auth_user_id user;
     first_name := first_name user; last_name := last_name user;
     created_at := created_at user; updated_at := now |}.

(** [db.commit()]: the row the query returned is written back. *)
Definition commit (i : nat) (user : User) : D unit :=
  λ db,
    if commit_raises db then (Raise DatabaseError, db)
    else (Ok (), set_users (<[i := user]> (users db)) db).

(** [db.refresh(user)]: the row is read again. *)
Definition refresh (i : nat) : D User :=
  λ db,
    if refresh_raises db then (Raise DatabaseError, db)
    else (from_option Ok (Raise DatabaseError) (users db !! i), db).

(** [db.rollback()]: changes that were not committed lived in the [user]
    object only, so the table is untouched. *)
Definition rollback : D unit := mret ().

(** [update_profile].  [now] is the reading of [datetime.utcnow()].
    Logging is left out, and so is [db.close()]. *)
Definition update_profile (now : Z) (user_id : str) (updates : gmap str value)
  : D response :=
  try_except
    (found ← query_first user_id;
     match found with
     | None =>
         mret {| success := false; profile := None;
                 error := Some (u "User not found") |}
     | Some (i, user) =>
         user ← match updates !! u "name" with
                | Some v =>
                    name_parts ← lift (name_parts_of v);
                    let user :=
                      set_first_name
                        (Some (match name_parts with
                               | w :: _ => w
                               | [] => []
                               end)) user in
                    let user :=
                      set_last_name
                        (Some (if decide (1 < length name_parts)
                               then join (u " ") (drop 1 name_parts)
                               else [])) user in
                    mret user
                | None => mret user
                end;
         let user := set_updated_at now user in
         _ ← commit i user;
         user ← refresh i;
         mret {| success := true; profile := Some user; error := None |}
     end)
    (λ e,
       _ ← rollback;
       mret {| success := false; profile := None;
               error := Some (u "Failed to update user") |}).

End MagicLink.

(** ** The specification's wording

    Definitions that follow the sentences of the specification rather than
    the code; the properties below compare the code with them. *)

Module Spec.
Import PyStr.

(** "an [@]-delimited domain": somewhere in the e-mail an ['@'] is
    followed by a domain character. *)
Definition has_domain (email : str) : Prop :=
  ∃ pre c post,
    email = pre ++ chr "@" :: c :: post ∧ Re.is_domain_char c = true.

(** [kw] is a substring of [d]. *)
Definition occurs (kw d : str) : Prop := ∃ pre post, d = pre ++ kw ++ post.

(** "strip common prefixes ([www.], [mail.], [email.])" *)
Definition strip_prefixes (d : str) : str :=
  if bool_decide (u "www." `prefix_of` d) then drop 4 d
  else if bool_decide (u "mail." `prefix_of` d) then drop 5 d
  else if bool_decide (u "email." `prefix_of` d) then drop 6 d
  else d.

(** "and TLD suffixes": when [d] ends with a dot and one of [tlds], both go. *)
Definition strip_tld (tlds : list str) (d : str) : str :=
  match list_find (λ t, (chr "." :: t) `suffix_of` d) tlds with
  | Some (_, t) => take (length d - S (length t)) d
  | None => d
  end.

(** No member of the list, with its dot, ends another one: at most one of
    them can be the suffix that is stripped. *)
Definition suffix_free (ls : list str) : Prop :=
  Forall (λ l1, Forall (λ l2,
    (chr "." :: l1) `suffix_of` (chr "." :: l2) → l1 = l2) ls) ls.

Definition tlds : list str :=
  u <$> ["com"; "org"; "net"; "co"; "io"; "ai"; "tech"; "inc"]%string.

Definition country_tlds : list str :=
  u <$> ["co.uk"; "com.au"; "co.in"]%string.

(** "capitalize first letter as a guessed company name", none when fewer
    than two characters remain. *)
Definition guessed_company (domain : str) : option str :=
  match strip_tld country_tlds (strip_tld tlds (strip_prefixes domain)) with
  | c :: c' :: rest => Some (upper_char c :: c' :: rest)
  | _ => None
  end.

(** "industry inferred from keyword substrings (bank/finance,
    tech/ai/software, health/medical/pharma, consulting, law/legal) else
    none"; an earlier group wins over a later one. *)
Definition finance_words : list str := u <$> ["bank"; "finance"]%string.
Definition technology_words : list str := u <$> ["tech"; "ai"; "software"]%string.
Definition health_words : list str := u <$> ["health"; "medical"; "pharma"]%string.
Definition consulting_words : list str := u <$> ["consulting"]%string.
Definition legal_words : list str := u <$> ["law"; "legal"]%string.

Definition mentions (words : list str) (d : str) : Prop :=
  Exists (λ kw, occurs kw d) words.

Inductive keyword_industry (d : str) : option str → Prop :=
| industry_finance :
    mentions finance_words d →
    keyword_industry d (Some (u "Financial Services"))
| industry_technology :
    ¬ mentions finance_words d →
    mentions technology_words d →
    keyword_industry d (Some (u "Technology"))
| industry_health :
    ¬ mentions (finance_words ++ technology_words) d →
    mentions health_words d →
    keyword_industry d (Some (u "Healthcare"))
| industry_consulting :
    ¬ mentions (finance_words ++ technology_words ++ health_words) d →
    mentions consulting_words d →
    keyword_industry d (Some (u "Consulting"))
| industry_legal :
    ¬ mentions (finance_words ++ technology_words ++ health_words
                ++ consulting_words) d →
    mentions legal_words d →
    keyword_industry d (Some (u "Legal Services"))
| industry_none :
    ¬ mentions (finance_words ++ technology_words ++ health_words
                ++ consulting_words ++ legal_words) d →
    keyword_industry d None.

(** "splitting on the first space": [first] is the text before the first
    space of [name] and [last] everything after it; without a space [first]
    is all of [name] and [last] is empty. *)
Definition split_at_first_space (name first last : str) : Prop :=
  let space := chr " " in
  ((space ∉ name) ∧ first = name ∧ last = []) ∨
  ((space ∉ first) ∧ name = first ++ space :: last).

End Spec.

(** ** company_detection/detector.py: [get_health] *)

Module DetectorHealth.
Import PyStr Detector.

Inductive exn :=
| ZeroDivisionError.



Section conversion.

(** The conversion of an [int] to the nearest [float] that Python applies to
    the right operand of [float / int]. *)
Variable float_of_int : Z → float.



End conversion.

End DetectorHealth.

(** ** supabase_auth/magic_link_old.py: the other profile functions *)

Module Profiles.
Import PyStr MagicLink.

(** The dict [get_or_create_profile] returns, by its keys. *)
Record created := {
  ok : bool;
  found : option User;
  is_new : option bool;
  failure : option str
}.

(** [metadata.get(key) if metadata else None], as the value of a nullable
    string column: a [str] or [None].  The sources do not show what the
    column does with a value of another type; the model refuses it. *)
Definition metadata_get (metadata : option (gmap str value)) (key : str)
  : outcome exn (option str) :=
  match metadata with
  | None => Ok None
  | Some md =>
      if decide (md = ∅) then Ok None
      else match md !! key with
           | None | Some VNone => Ok None
           | Some (VStr s) => Ok (Some s)
           | Some _ => Raise NotAString
           end
  end.

(** [db.add(new_user); db.commit()]: the row goes to the end of the table;
    the answer is its place. *)
Definition add_commit (user : User) : D nat :=
  λ db,
    if commit_raises db then (Raise DatabaseError, db)
    else (Ok (length (users db)), set_users (users db ++ [user]) db).

(** [get_or_create_profile].  [now1] and [now2] are the two readings of
    [datetime.utcnow()]. *)
Definition get_or_create_profile (now1 now2 : Z) (user_id email : str)
    (metadata : option (gmap str value)) : D created :=
  try_except
    (existing_user ← query_first user_id;
     match existing_user with
     | Some (_, existing_user) =>
         mret {| ok := true; found := Some existing_user;
                 is_new := Some false; failure := None |}
     | None =>
         first ← lift (metadata_get metadata (u "first_name"));
         last ← lift (metadata_get metadata (u "last_name"));
         let new_user :=
           {| MagicLink.email := email; auth_user_id := user_id;
              first_name := first; last_name := last;
              created_at := now1; updated_at := now2 |} in
         i ← add_commit new_user;
         new_user ← refresh i;
         mret {| ok := true; found := Some new_user;
                 is_new := Some true; failure := None |}
     end)
    (λ e,
       _ ← rollback;
       mret {| ok := false; found := None; is_new := None;
               failure := Some (u "Failed to manage user profile") |}).

(** [get_profile]: the handler answers [None]. *)
Definition get_profile (user_id : str) : D (option User) :=
  try_except
    (user ← query_first user_id; mret (snd <$> user))
    (λ e, mret None).

(** [is_profile_complete]: [bool(user.first_name and user.email)]. *)
Definition is_profile_complete (user_id : str) : D bool :=
  try_except
    (user ← query_first user_id;
     match user with
     | None => mret false
     | Some (_, user) =>
         mret (truthy (first_name user)
               && negb (bool_decide (MagicLink.email user = [])))
     end)
    (λ e, mret false).

End Profiles.

(** ** email/resend_service.py: construction, batches and the two
    ready-made e-mails *)

Module ResendMore.
Import PyStr Resend.

(** [ResendService.__init__].  [env] is the process environment.  The
    constructor also stores the key in the [resend] module, which nothing
    here reads. *)
Definition init (api_key : option str) (env : gmap str str)
  : outcome exception ResendService :=
  let api_key :=
    if truthy api_key then api_key else env !! u "RESEND_API_KEY" in
  if negb (truthy api_key) then
    Raise {| message := u "Resend API key is required" |}
  else
    Ok {| Resend.api_key := default [] api_key;
          Resend.from_email :=
            default (u "noreply@yourdomain.com") (env !! u "RESEND_FROM_EMAIL") |}.


(** A double quote and a newline. *)
Definition dq : str := [34%N].
Definition nl : str := [10%N].

Definition send_magic_link_subject  : str :=
  u "Your secure login link".

Definition send_magic_link_html (name magic_link : str) (company : option str) : str :=
  nl ++
  u "        <!DOCTYPE html>" ++ nl ++
  u "        <html>" ++ nl ++
  u "        <head>" ++ nl ++
  u "            <style>" ++ nl ++
  u "                body { font-family: -apple-system, BlinkMacSystemFont, 'Segoe UI', Roboto, 'Helvetica Neue', Arial, sans-serif; }" ++ nl ++
  u "                .container { max-width: 600px; margin: 0 auto; padding: 20px; }" ++ nl ++
  u "                .button { " ++ nl ++
  u "                    display: inline-block;" ++ nl ++
  u "                    padding: 12px 24px;" ++ nl ++
  u "                    background-color: #3b82f6;" ++ nl ++
  u "                    color: white;" ++ nl ++
  u "                    text-decoration: none;" ++ nl ++
  u "                    border-radius: 6px;" ++ nl ++
  u "                    font-weight: 500;" ++ nl ++
  u "                }" ++ nl ++
  u "                .footer { margin-top: 40px; color: #6b7280; font-size: 14px; }" ++ nl ++
  u "            </style>" ++ nl ++
  u "        </head>" ++ nl ++
  u "        <body>" ++ nl ++
  u "            <div class=" ++ dq ++ u "container" ++ dq ++ u ">" ++ nl ++
  u "                <h2>Hello " ++ name ++ u "!</h2>" ++ nl ++
  u "                " ++ (if truthy company then u "<p>Welcome to AIDEN from " ++ (default [] company) ++ u ".</p>" else u "<p>Welcome to AIDEN.</p>") ++ nl ++
  u "                <p>Click the button below to securely log in to your account:</p>" ++ nl ++
  u "                <p style=" ++ dq ++ u "margin: 30px 0;" ++ dq ++ u ">" ++ nl ++
  u "                    <a href=" ++ dq ++ magic_link ++ dq ++ u " class=" ++ dq ++ u "button" ++ dq ++ u ">Log In to AIDEN</a>" ++ nl ++
  u "                </p>" ++ nl ++
  u "                <p>Or copy and paste this link in your browser:</p>" ++ nl ++
  u "                <p style=" ++ dq ++ u "word-break: break-all; color: #3b82f6;" ++ dq ++ u ">" ++ magic_link ++ u "</p>" ++ nl ++
  u "                <div class=" ++ dq ++ u "footer" ++ dq ++ u ">" ++ nl ++
  u "                    <p>This link will expire in 15 minutes for security reasons.</p>" ++ nl ++
  u "                    <p>If you didn't request this email, you can safely ignore it.</p>" ++ nl ++
  u "                </div>" ++ nl ++
  u "            </div>" ++ nl ++
  u "        </body>" ++ nl ++
  u "        </html>" ++ nl ++
  u "        ".

Definition send_magic_link_text (name magic_link : str) (company : option str) : str :=
  nl ++
  u "        Hello " ++ name ++ u "!" ++ nl ++
  u "        " ++ nl ++
  u "        " ++ (if truthy company then u "Welcome to AIDEN from " ++ (default [] company) ++ u "." else u "Welcome to AIDEN.") ++ nl ++
  u "        " ++ nl ++
  u "        Click this link to securely log in to your account:" ++ nl ++
  u "        " ++ magic_link ++ nl ++
  u "        " ++ nl ++
  u "        This link will expire in 15 minutes for security reasons." ++ nl ++
  u "        If you didn't request this email, you can safely ignore it." ++ nl ++
  u "        ".

Definition send_completion_email_subject (completion_type : str) : str :=
  u "Your " ++ completion_type ++ u " Results".

Definition send_completion_email_html (name completion_type : str) (results_url : option str) : str :=
  nl ++
  u "        <!DOCTYPE html>" ++ nl ++
  u "        <html>" ++ nl ++
  u "        <head>" ++ nl ++
  u "            <style>" ++ nl ++
  u "                body { font-family: -apple-system, BlinkMacSystemFont, 'Segoe UI', Roboto, 'Helvetica Neue', Arial, sans-serif; }" ++ nl ++
  u "                .container { max-width: 600px; margin: 0 auto; padding: 20px; }" ++ nl ++
  u "                .button { " ++ nl ++
  u "                    display: inline-block;" ++ nl ++
  u "                    padding: 12px 24px;" ++ nl ++
  u "                    background-color: #10b981;" ++ nl ++
  u "                    color: white;" ++ nl ++
  u "                    text-decoration: none;" ++ nl ++
  u "                    border-radius: 6px;" ++ nl ++
  u "                    font-weight: 500;" ++ nl ++
  u "                }" ++ nl ++
  u "                .success-badge {" ++ nl ++
  u "                    display: inline-block;" ++ nl ++
  u "                    padding: 4px 8px;" ++ nl ++
  u "                    background-color: #d1fae5;" ++ nl ++
  u "                    color: #065f46;" ++ nl ++
  u "                    border-radius: 4px;" ++ nl ++
  u "                    font-size: 12px;" ++ nl ++
  u "                    font-weight: 600;" ++ nl ++
  u "                }" ++ nl ++
  u "                .footer { margin-top: 40px; color: #6b7280; font-size: 14px; }" ++ nl ++
  u "            </style>" ++ nl ++
  u "        </head>" ++ nl ++
  u "        <body>" ++ nl ++
  u "            <div class=" ++ dq ++ u "container" ++ dq ++ u ">" ++ nl ++
  u "                <h2>Congratulations, " ++ name ++ u "! " ++ [127881%N] ++ u "</h2>" ++ nl ++
  u "                <p>You've successfully completed your <span class=" ++ dq ++ u "success-badge" ++ dq ++ u ">" ++ completion_type ++ u "</span></p>" ++ nl ++
  u "                " ++ nl ++
  u "                " ++ (if truthy results_url then u "<p>Your personalized results are ready. Click the button below to view them:</p><p style='margin: 30px 0;'><a href='" ++ (default [] results_url) ++ u "' class='button'>View Your Results</a></p>" else u "<p>Your results report is attached to this email.</p>") ++ nl ++
  u "                " ++ nl ++
  u "                <h3>What's Next?</h3>" ++ nl ++
  u "                <ul>" ++ nl ++
  u "                    <li>Review your personalized insights</li>" ++ nl ++
  u "                    <li>Share results with your team</li>" ++ nl ++
  u "                    <li>Schedule a follow-up consultation</li>" ++ nl ++
  u "                </ul>" ++ nl ++
  u "                " ++ nl ++
  u "                <div class=" ++ dq ++ u "footer" ++ dq ++ u ">" ++ nl ++
  u "                    <p>Thank you for using our platform. If you have any questions, please don't hesitate to reach out.</p>" ++ nl ++
  u "                </div>" ++ nl ++
  u "            </div>" ++ nl ++
  u "        </body>" ++ nl ++
  u "        </html>" ++ nl ++
  u "        ".

Definition send_completion_email_text (name completion_type : str) (results_url : option str) : str :=
  nl ++
  u "        Congratulations, " ++ name ++ u "!" ++ nl ++
  u "        " ++ nl ++
  u "        You've successfully completed your " ++ completion_type ++ u "." ++ nl ++
  u "        " ++ nl ++
  u "        " ++ (if truthy results_url then u "Your personalized results are ready. View them here: " ++ (default [] results_url) else u "Your results report is attached to this email.") ++ nl ++
  u "        " ++ nl ++
  u "        What's Next?" ++ nl ++
  u "        - Review your personalized insights" ++ nl ++
  u "        - Share results with your team" ++ nl ++
  u "        - Schedule a follow-up consultation" ++ nl ++
  u "        " ++ nl ++
  u "        Thank you for using our platform. If you have any questions, please don't hesitate to reach out." ++ nl ++
  u "        ".

Section provider.
Variable Emails_send : gmap str value → outcome exception (gmap str str).


Definition send_magic_link (to name magic_link : str) (company : option str)
  : R EmailResult :=
  let subject := send_magic_link_subject in
  let html := send_magic_link_html name magic_link company in
  let text := send_magic_link_text name magic_link company in
  send_email Emails_send (One to) subject (Some html) (Some text) None None None
    (Some {[ u "type" := u "magic_link"; u "app" := u "aiden" ]}).

Definition send_completion_email (to name completion_type : str)
    (results_url : option str) (attachment : option EmailAttachment)
  : R EmailResult :=
  let subject := send_completion_email_subject completion_type in
  let html := send_completion_email_html name completion_type results_url in
  let text := send_completion_email_text name completion_type results_url in
  let attachments :=
    match attachment with
    | Some attachment => Some [attachment]
    | None => None
    end in
  send_email Emails_send (One to) subject (Some html) (Some text) None None
    attachments
    (Some {[ u "type" := u "completion"; u "completion_type" := completion_type ]}).

End provider.

End ResendMore.

(** * Properties *)

(** ** Insertion-ordered dictionaries *)

Module PyDictFacts.
Import PyDict.

Section dict.
Context {V : Type}.
Implicit Types (k : str) (v : V) (d : list (str * V)).

Lemma dict_contains_true k d : dict_contains k d = true ↔ k ∈ d.*1.
Proof. unfold dict_contains. by rewrite bool_decide_eq_true. Qed.

Lemma dict_contains_false k d : dict_contains k d = false ↔ k ∉ d.*1.
Proof. unfold dict_contains. by rewrite bool_decide_eq_false. Qed.

Lemma dict_getitem_contains k d :
  k ∈ d.*1 → ∃ v, dict_getitem k d = Ok v.
Proof.
  induction d as [|[k' v'] d IH]; simpl.
  - intros H. by apply elem_of_nil in H.
  - intros [->|H]%elem_of_cons.
    + exists v'. by rewrite decide_True.
    + destruct (decide (k' = k)); eauto.
Qed.

Lemma dict_getitem_elem k v d : dict_getitem k d = Ok v → (k, v) ∈ d.
Proof.
  induction d as [|[k' v'] d IH]; simpl; [done|].
  destruct (decide (k' = k)) as [->|].
  - intros [= ->]. left.
  - intros H. right. auto.
Qed.

Lemma dict_setitem_absent k v d : k ∉ d.*1 → dict_setitem k v d = d ++ [(k, v)].
Proof.
  induction d as [|[k' v'] d IH]; simpl; [done|].
  intros [Hne Hd]%not_elem_of_cons.
  rewrite decide_False by done. by rewrite IH.
Qed.

Lemma dict_setitem_elem k v k' v' d :
  (k', v') ∈ dict_setitem k v d → (k', v') = (k, v) ∨ (k', v') ∈ d.
Proof.
  induction d as [|[k0 v0] d IH]; simpl.
  - intros ->%list_elem_of_singleton. by left.
  - destruct (decide (k0 = k)) as [->|].
    + intros [->|H]%elem_of_cons; [by left|]. right. by right.
    + intros [->|H]%elem_of_cons; [right; left|].
      destruct (IH H); [by left|]. right. by right.
Qed.

Lemma dict_getitem_setitem k v d : dict_getitem k (dict_setitem k v d) = Ok v.
Proof.
  induction d as [|[k' v'] d IH]; simpl.
  - by rewrite decide_True.
  - destruct (decide (k' = k)) as [->|]; simpl.
    + by rewrite decide_True.
    + by rewrite decide_False.
Qed.

Lemma dict_contains_setitem k v d : dict_contains k (dict_setitem k v d) = true.
Proof.
  apply dict_contains_true.
  induction d as [|[k' v'] d IH]; simpl; [left|].
  destruct (decide (k' = k)) as [->|]; simpl; [left|by right].
Qed.

(** Deleting the key [next(iter(d))] of a non-empty dict drops its first item. *)
Lemma dict_delitem_first k v d : dict_delitem k ((k, v) :: d) = Ok d.
Proof. simpl. by rewrite decide_True. Qed.

End dict.

End PyDictFacts.

(** ** company_detection/detector.py *)

Module DetectorFacts.
Import PyStr PyDict Detector PyDictFacts.

(** Running a program one statement further. *)
Ltac prog_step :=
  cbv beta iota zeta delta
    [mbind prog_bind outcome_bind update read lift mret prog_ret outcome_ret
     on_self set_metrics set_cache new_result self cache metrics next_id compose].

(** *** What [_cache_result] does *)

Lemma cache_result_run email o t st :
  _cache_result email o t st =
    (Ok o,
     {| self :=
          {| cache :=
               dict_setitem email o
                 (if decide (1000 < length (cache (self st)))
                  then drop 1 (cache (self st)) else cache (self st));
             metrics :=
               {| total_detections := total_detections (metrics (self st)) + 1;
                  cache_hits := cache_hits (metrics (self st));
                  total_response_time :=
                    (total_response_time (metrics (self st)) + t)%float;
                  cache_size := Z.of_nat (length (cache (self st))) |} |};
        next_id := next_id st |}).
Proof.
  destruct st as [[c m] n]. unfold _cache_result. prog_step.
  destruct (decide (1000 < length c)) as [Hlt|Hge].
  - destruct c as [|[k v] c]; [simpl in Hlt; lia|].
    cbv beta iota delta [dict_first_key]. rewrite dict_delitem_first. reflexivity.
  - reflexivity.
Qed.

(** *** The two paths of [detect_from_email] *)

Lemma detect_hit t email st :
  dict_contains email (cache (self st)) = true →
  ∃ o,
    dict_getitem email (cache (self st)) = Ok o ∧
    detect_from_email t email st =
      (Ok o,
       {| self :=
            {| cache := cache (self st);
               metrics :=
                 {| total_detections := total_detections (metrics (self st)) + 1;
                    cache_hits := cache_hits (metrics (self st)) + 1;
                    total_response_time := total_response_time (metrics (self st));
                    cache_size := cache_size (metrics (self st)) |} |};
          next_id := next_id st |}).
Proof.
  intros Hin.
  destruct (dict_getitem_contains email (cache (self st))) as [o Ho].
  { by apply dict_contains_true. }
  exists o. split; [done|].
  destruct st as [[c m] n]. unfold detect_from_email. prog_step.
  cbv beta iota zeta delta [self cache] in Hin, Ho. rewrite Hin.
  prog_step. rewrite Ho. reflexivity.
Qed.

Lemma detect_miss t email st :
  dict_contains email (cache (self st)) = false →
  detect_from_email t email st =
    (r ← lift (classify email);
     result ← new_result r;
     _cache_result email result t) st.
Proof.
  intros Hin. unfold detect_from_email, classify.
  destruct st as [[c m] n]. prog_step.
  cbv beta iota zeta delta [self cache] in Hin. rewrite Hin.
  destruct (Re.search_domain email) as [group1|]; [|reflexivity].
  prog_step.
  destruct (bool_decide _); [reflexivity|].
  destruct (is_educational _); [reflexivity|].
  destruct (is_government _); [reflexivity|].
  destruct (corporate_info !! _) as [info|].
  - destruct (info !! u "name"); cbn [from_option]; prog_step; reflexivity.
  - destruct (_extract_company_from_domain _); prog_step; reflexivity.
Qed.

(** *** The rules never raise *)

Lemma corporate_info_names :
  map_Forall (λ _ info, is_Some (info !! u "name")) corporate_info.
Proof.
  apply map_Forall_to_list.
  apply (bool_decide_unpack _). vm_compute. reflexivity.
Qed.

Lemma extract_company_total domain :
  ∃ name, _extract_company_from_domain domain = Ok name.
Proof.
  unfold _extract_company_from_domain.
  set (clean := Re.sub_suffix _ (Re.sub_suffix _ _)).
  destruct (decide (length clean < 2)) as [|Hlen]; [by eexists|].
  destruct clean as [|c clean']; [simpl in Hlen; lia|]. by eexists.
Qed.

Lemma classify_total email : ∃ r, classify email = Ok r.
Proof.
  unfold classify.
  destruct (Re.search_domain email) as [group1|]; [|by eexists].
  cbv zeta.
  destruct (bool_decide _); [by eexists|].
  destruct (is_educational _); [by eexists|].
  destruct (is_government _); [by eexists|].
  destruct (corporate_info !! _) as [info|] eqn:Hinfo.
  - destruct (corporate_info_names _ _ Hinfo) as [name ->]. by eexists.
  - destruct (extract_company_total (lower group1)) as [name ->]. by eexists.
Qed.

Lemma classify_confidence email r :
  classify email = Ok r → confidence r ∈ confidence_values.
Proof.
  unfold classify, confidence_values.
  destruct (Re.search_domain email) as [group1|]; [|intros [= <-]; set_solver].
  cbv zeta.
  destruct (bool_decide _); [intros [= <-]; set_solver|].
  destruct (is_educational _); [intros [= <-]; set_solver|].
  destruct (is_government _); [intros [= <-]; set_solver|].
  destruct (corporate_info !! _) as [info|].
  - destruct (info !! u "name"); [|done]. intros [= <-]. set_solver.
  - destruct (_extract_company_from_domain _) as [name|]; [|done].
    intros [= <-]. simpl. destruct (truthy name); set_solver.
Qed.

Lemma confidence_values_unit x :
  x ∈ confidence_values → in_unit_interval x = true.
Proof.
  unfold confidence_values. rewrite !elem_of_cons, elem_of_nil.
  intros [->|[->|[->|[->|[->|[->|[]]]]]]]; reflexivity.
Qed.

(** A call that misses the cache builds the result of the rules, gives it a
    fresh identity and stores it. *)
Lemma detect_miss_run t email st :
  dict_contains email (cache (self st)) = false →
  ∃ r,
    classify email = Ok r ∧
    detect_from_email t email st =
      (Ok {| oid := next_id st; value := r |},
       {| self :=
            {| cache :=
                 dict_setitem email {| oid := next_id st; value := r |}
                   (if decide (1000 < length (cache (self st)))
                    then drop 1 (cache (self st)) else cache (self st));
               metrics :=
                 {| total_detections := total_detections (metrics (self st)) + 1;
                    cache_hits := cache_hits (metrics (self st));
                    total_response_time :=
                      (total_response_time (metrics (self st)) + t)%float;
                    cache_size := Z.of_nat (length (cache (self st))) |} |};
          next_id := S (next_id st) |}).
Proof.
  intros Hmiss. destruct (classify_total email) as [r Hr].
  exists r. split; [done|].
  rewrite detect_miss by done. rewrite Hr.
  destruct st as [[c m] n]. prog_step. by rewrite cache_result_run.
Qed.

(** *** What the cache of a reachable service holds *)

Lemma reachable_cache_sound st :
  reachable st →
  ∀ k o, (k, o) ∈ cache (self st) → classify k = Ok (value o).
Proof.
  induction 1 as [n|st t email r st' _ IH Hrun|st r st' _ IH Hrun]; intros k o Hin.
  - by apply elem_of_nil in Hin.
  - destruct (dict_contains email (cache (self st))) eqn:Hc.
    + destruct (detect_hit t email st Hc) as (o' & _ & Hhit).
      rewrite Hhit in Hrun. injection Hrun as _ <-. by apply IH.
    + destruct (detect_miss_run t email st Hc) as (r' & Hr' & Hmiss).
      rewrite Hmiss in Hrun. injection Hrun as _ <-. cbn [self cache] in Hin.
      apply dict_setitem_elem in Hin as [[= -> ->]|Hin]; [done|].
      apply IH. destruct (decide _); [|done].
      by eapply subseteq_drop.
  - unfold clear_cache in Hrun. revert Hrun. prog_step.
    intros [= _ <-]. cbn [self cache] in Hin. by apply elem_of_nil in Hin.
Qed.

(** *** The domain pattern *)

Lemma run_domain_chars s : Forall (λ c, Re.is_domain_char c = true) (Re.run Re.is_domain_char s).
Proof.
  induction s as [|c s IH]; simpl; [constructor|].
  destruct (Re.is_domain_char c) eqn:Hc; by constructor.
Qed.

Lemma search_domain_Some email d :
  Re.search_domain email = Some d →
  Spec.has_domain email ∧ d ≠ [] ∧ Forall (λ c, Re.is_domain_char c = true) d.
Proof.
  induction email as [|a email IH]; simpl; [done|].
  assert (Re.search_domain email = Some d →
          Spec.has_domain (a :: email) ∧ d ≠ [] ∧
          Forall (λ c, Re.is_domain_char c = true) d) as Hrest.
  { intros ((pre & c & post & -> & Hc) & ? & ?)%IH. split; [|done].
    by exists (a :: pre), c, post. }
  destruct (a =? chr "@")%N eqn:Ha; [|exact Hrest].
  apply N.eqb_eq in Ha as ->.
  destruct (Re.run Re.is_domain_char email) as [|c d'] eqn:Hrun; [exact Hrest|].
  intros [= <-]. split_and!; [|done|rewrite <-Hrun; apply run_domain_chars].
  destruct email as [|c' post]; [done|]. simpl in Hrun.
  destruct (Re.is_domain_char c') eqn:Hc'; [|done].
  by exists [], c', post.
Qed.

Lemma search_domain_has_domain email :
  Spec.has_domain email → is_Some (Re.search_domain email).
Proof.
  intros (pre & c & post & -> & Hc).
  induction pre as [|a pre IH]; simpl.
  - rewrite Hc. by eexists.
  - destruct (a =? chr "@")%N; [|done].
    destruct (Re.run Re.is_domain_char _); [done|by eexists].
Qed.

(** The search fails exactly on the e-mails without a domain. *)
Lemma search_domain_None email :
  Re.search_domain email = None ↔ ¬ Spec.has_domain email.
Proof.
  split.
  - intros Hnone [d Hd]%search_domain_has_domain. congruence.
  - intros Hno. destruct (Re.search_domain email) as [d|] eqn:Hd; [|done].
    by apply search_domain_Some in Hd as [? _].
Qed.

(** *** The claims on [detect_from_email] *)

(** C2.  [detect_from_email] never raises: in every state of the service and
    on every string the call returns a result object, the look-ups and
    index operations that could raise [KeyError], [IndexError] or
    [StopIteration] never doing so; when the result is built by the call
    (the e-mail was not cached), its confidence is one of the values of the
    rules, the least of which is 0. *)
Theorem detect_from_email_never_raises st t email :
  ∃ o st',
    detect_from_email t email st = (Ok o, st') ∧
    (dict_contains email (cache (self st)) = false →
     confidence (value o) ∈ confidence_values ∧
     in_unit_interval (confidence (value o)) = true).
Proof.
  destruct (dict_contains email (cache (self st))) eqn:Hc.
  - destruct (detect_hit t email st Hc) as (o & _ & ->).
    do 2 eexists. split; [reflexivity|]. intros [=].
  - destruct (detect_miss_run t email st Hc) as (r & Hr & ->).
    do 2 eexists. split; [reflexivity|]. intros _. simpl.
    apply classify_confidence in Hr. eauto using confidence_values_unit.
Qed.

Lemma detect_from_email_never_raises_witness :
  ∃ o st',
    detect_from_email 0 (u "@") (fresh 0) = (Ok o, st') ∧
    confidence (value o) ∈ confidence_values ∧
    in_unit_interval (confidence (value o)) = true.
Proof.
  destruct (detect_from_email_never_raises (fresh 0) 0 (u "@"))
    as (o & st' & Hrun & Hconf).
  exists o, st'. split; [exact Hrun|]. exact (Hconf eq_refl).
Defined.

(** What a call returns in a reachable state is the result of the rules. *)
Lemma detect_returns_classify st t email :
  reachable st →
  ∃ o st',
    detect_from_email t email st = (Ok o, st') ∧ classify email = Ok (value o).
Proof.
  intros Hst. destruct (dict_contains email (cache (self st))) eqn:Hc.
  - destruct (detect_hit t email st Hc) as (o & Ho & ->).
    do 2 eexists. split; [done|].
    eapply reachable_cache_sound; [done|]. by apply dict_getitem_elem.
  - destruct (detect_miss_run t email st Hc) as (r & Hr & ->). by eauto.
Qed.

(** C3.  On an e-mail in which no ['@'] is followed by a domain character,
    [detect_from_email] returns a result of type ['unknown'] with confidence
    0 and with neither company nor website. *)
Theorem detect_without_domain_unknown st t email :
  reachable st →
  ¬ Spec.has_domain email →
  ∃ o st',
    detect_from_email t email st = (Ok o, st') ∧
    type (value o) = u "unknown" ∧
    confidence (value o) = Int 0 ∧
    company (value o) = None ∧
    website (value o) = None.
Proof.
  intros Hst Hno%search_domain_None.
  destruct (detect_returns_classify st t email Hst) as (o & st' & Hrun & Hcl).
  exists o, st'. split; [done|].
  unfold classify in Hcl. rewrite Hno in Hcl. by injection Hcl as <-.
Qed.

Lemma detect_without_domain_unknown_witness :
  reachable (fresh 0) ∧
  ¬ Spec.has_domain (u "not an address") ∧
  ∃ o st',
    detect_from_email 0 (u "not an address") (fresh 0) = (Ok o, st') ∧
    type (value o) = u "unknown" ∧
    confidence (value o) = Int 0 ∧
    company (value o) = None ∧
    website (value o) = None.
Proof.
  assert (¬ Spec.has_domain (u "not an address")) as Hno.
  { apply search_domain_None. reflexivity. }
  split; [constructor|]. split; [exact Hno|].
  exact (detect_without_domain_unknown (fresh 0) 0 (u "not an address")
           (reachable_fresh 0) Hno).
Defined.

(** C6.  Every result [detect_from_email] returns has its confidence in the
    closed interval from 0 to 1; it is one of 0, 0.2, 0.6, 0.8, 0.9, 1.0. *)
Theorem detect_confidence_unit_interval st t email :
  reachable st →
  ∃ o st',
    detect_from_email t email st = (Ok o, st') ∧
    confidence (value o) ∈ confidence_values ∧
    in_unit_interval (confidence (value o)) = true.
Proof.
  intros Hst.
  destruct (detect_returns_classify st t email Hst) as (o & st' & Hrun & Hcl).
  exists o, st'. split; [done|].
  apply classify_confidence in Hcl. eauto using confidence_values_unit.
Qed.

Lemma detect_confidence_unit_interval_witness :
  reachable (fresh 0) ∧
  ∃ o st',
    detect_from_email 0 (u "student@stanford.edu") (fresh 0) = (Ok o, st') ∧
    confidence (value o) ∈ confidence_values ∧
    in_unit_interval (confidence (value o)) = true.
Proof.
  split; [constructor|].
  exact (detect_confidence_unit_interval (fresh 0) 0 (u "student@stanford.edu")
           (reachable_fresh 0)).
Defined.

(** C4.  Two calls in succession with the same e-mail: the second call
    returns the very object the first one returned (same identity, same
    fields) and adds one to [cache_hits]; when the e-mail was not cached
    before, the first call builds that object anew and leaves [cache_hits]
    alone, so that the counter moves on the second call only. *)
Theorem detect_twice_cached st t1 t2 email :
  ∃ o st1 st2,
    detect_from_email t1 email st = (Ok o, st1) ∧
    detect_from_email t2 email st1 = (Ok o, st2) ∧
    cache_hits (metrics (self st2)) = (cache_hits (metrics (self st1)) + 1)%Z ∧
    cache (self st2) = cache (self st1) ∧
    (dict_contains email (cache (self st)) = false →
     oid o = next_id st ∧
     cache_hits (metrics (self st1)) = cache_hits (metrics (self st))).
Proof.
  destruct (dict_contains email (cache (self st))) eqn:Hc.
  - destruct (detect_hit t1 email st Hc) as (o & Ho & Hfirst).
    rewrite Hfirst. clear Hfirst.
    set (st1 := {| self := _; next_id := next_id st |}).
    destruct (detect_hit t2 email st1 Hc) as (o' & Ho' & Hsecond).
    cbn [st1 self cache] in Ho'. rewrite Ho in Ho'. injection Ho' as <-.
    exists o, st1. eexists. rewrite Hsecond.
    split_and!; [reflexivity..|]. intros [=].
  - destruct (detect_miss_run t1 email st Hc) as (r & Hr & Hfirst).
    rewrite Hfirst. clear Hfirst.
    set (o := {| oid := next_id st; value := r |}).
    set (st1 := {| self := _; next_id := S (next_id st) |}).
    assert (dict_contains email (cache (self st1)) = true) as Hhit.
    { apply dict_contains_setitem. }
    destruct (detect_hit t2 email st1 Hhit) as (o' & Ho' & Hsecond).
    cbn [st1 self cache] in Ho'. rewrite dict_getitem_setitem in Ho'.
    injection Ho' as <-.
    exists o, st1. eexists. rewrite Hsecond.
    split_and!; [reflexivity..|]. intros _. split; reflexivity.
Qed.

Lemma detect_twice_cached_witness :
  let email := u "person@microsoft.com" in
  dict_contains email (cache (self (fresh 0))) = false ∧
  ∃ o st1 st2,
    detect_from_email 0 email (fresh 0) = (Ok o, st1) ∧
    detect_from_email 0 email st1 = (Ok o, st2) ∧
    oid o = 0 ∧
    cache_hits (metrics (self st1)) = 0%Z ∧
    cache_hits (metrics (self st2)) = 1%Z.
Proof.
  intros email. split; [reflexivity|].
  destruct (detect_twice_cached (fresh 0) 0 0 email)
    as (o & st1 & st2 & H1 & H2 & Hhits & _ & Hmiss).
  destruct (Hmiss eq_refl) as [Hoid Hfirst].
  exists o, st1, st2. split_and!; [done..|].
  rewrite Hhits, Hfirst. reflexivity.
Defined.

(** C7.  [clear_cache] empties the cache and sets the [cache_size] metric to
    0; [total_detections], [cache_hits] and [total_response_time] keep their
    values. *)
Theorem clear_cache_resets st :
  ∃ st',
    clear_cache st = (Ok (), st') ∧
    cache (self st') = [] ∧
    cache_size (metrics (self st')) = 0%Z ∧
    total_detections (metrics (self st')) = total_detections (metrics (self st)) ∧
    cache_hits (metrics (self st')) = cache_hits (metrics (self st)) ∧
    total_response_time (metrics (self st')) = total_response_time (metrics (self st)).
Proof. by eexists. Qed.

(** *** The size of the cache *)



(** Distinct e-mails that are not cached yet are appended one after the
    other, and nothing is evicted, as long as the cache holds at most 1000
    entries before each call. *)
Lemma detect_all_distinct t emails st :
  NoDup emails →
  (∀ e, e ∈ emails → e ∉ (cache (self st)).*1) →
  length (cache (self st)) + length emails ≤ 1001 →
  (cache (self (detect_all t emails st))).*1 = (cache (self st)).*1 ++ emails.
Proof.
  revert st. induction emails as [|e emails IH]; intros st Hnd Hnew Hlen.
  - simpl. by rewrite app_nil_r.
  - apply NoDup_cons in Hnd as [He Hnd]. simpl in Hlen.
    assert (e ∉ (cache (self st)).*1) as Hmiss by (apply Hnew; left).
    destruct (detect_miss_run t e st) as (r & _ & Hrun).
    { by apply dict_contains_false. }
    cbn [detect_all]. rewrite Hrun. cbn [snd].
    destruct (decide (1000 < length (cache (self st)))) as [|_]; [lia|].
    rewrite IH; cbn [self cache].
    + rewrite dict_setitem_absent by done.
      by rewrite fmap_app, <-app_assoc.
    + done.
    + intros e' He'. rewrite dict_setitem_absent by done.
      rewrite fmap_app, elem_of_app. intros [Hin|Hin].
      * eapply Hnew; [by right|done].
      * apply list_elem_of_singleton in Hin. simpl in Hin. by subst.
    + rewrite dict_setitem_absent by done. rewrite length_app. simpl. lia.
Qed.

Lemma detect_all_app t emails1 emails2 st :
  detect_all t (emails1 ++ emails2) st =
    detect_all t emails2 (detect_all t emails1 st).
Proof.
  revert st. induction emails1 as [|e emails1 IH]; intros st; [done|].
  cbn [app detect_all]. apply IH.
Qed.

(** With 1001 entries in the cache, a further e-mail that is not cached
    takes the place of the earliest entry. *)
Lemma detect_evicts_earliest t email st :
  email ∉ (cache (self st)).*1 →
  length (cache (self st)) = 1001 →
  (cache (self (detect_from_email t email st).2)).*1 =
    drop 1 (cache (self st)).*1 ++ [email].
Proof.
  intros Hmiss Hlen.
  destruct (detect_miss_run t email st) as (r & _ & ->).
  { by apply dict_contains_false. }
  cbn [snd self cache].
  rewrite decide_True by lia.
  rewrite dict_setitem_absent.
  - by rewrite fmap_app, fmap_drop.
  - rewrite fmap_drop. intros Hin. by apply Hmiss, (subseteq_drop 1).
Qed.

#[local] Instance u_inj : Inj (=) (=) u.
Proof.
  assert (Inj (=) (=) N_of_ascii) as Hinj.
  { intros a b Hab.
    rewrite <-(ascii_N_embedding a), <-(ascii_N_embedding b). by rewrite Hab. }
  intros x y Hxy. unfold u in Hxy.
  apply (inj (fmap N_of_ascii)) in Hxy.
  rewrite <-(string_of_list_ascii_of_string x), <-(string_of_list_ascii_of_string y).
  by rewrite Hxy.
Qed.

#[local] Instance nth_email_inj : Inj (=) (=) nth_email.
Proof.
  intros n m Hnm. unfold nth_email in Hnm.
  apply app_inv_head, app_inv_tail in Hnm.
  by apply (inj u), (inj pretty) in Hnm.
Qed.

(** The cache after the 1001 addresses [user0@example.com] to
    [user1000@example.com]: all of them, in the order of the calls. *)
Lemma detect_all_1001_keys :
  (cache (self (detect_all 0 (nth_email <$> seq 0 1001) (fresh 0)))).*1 =
    nth_email <$> seq 0 1001.
Proof.
  rewrite detect_all_distinct; [done| | |].
  - apply (NoDup_fmap_2 _), NoDup_seq.
  - intros e _. cbn. apply not_elem_of_nil.
  - rewrite length_fmap, length_seq. cbn [fresh self cache init length]. lia.
Qed.

(** C1, as the code has it.  After [detect_from_email] has been called on
    the 1001 distinct addresses [user0@example.com] to
    [user1000@example.com], the cache of a new service holds 1001 entries:
    all of them, the earliest included.  Nothing was evicted, and the cache
    is larger than 1000. *)
Theorem cache_holds_1001_entries :
  let st := detect_all 0 (nth_email <$> seq 0 1001) (fresh 0) in
  length (cache (self st)) = 1001 ∧
  (cache (self st)).*1 = nth_email <$> seq 0 1001 ∧
  dict_contains (nth_email 0) (cache (self st)) = true.
Proof.
  intros st. pose proof detect_all_1001_keys as Hkeys. fold st in Hkeys.
  clearbody st. split_and!; [|done|].
  - by rewrite <-(length_fmap fst), Hkeys, length_fmap, length_seq.
  - apply dict_contains_true. rewrite Hkeys.
    apply list_elem_of_fmap_2, elem_of_seq. lia.
Qed.

(** The first eviction comes with the 1002nd distinct address: it removes
    [user0@example.com], and the cache stays at 1001 entries. *)
Lemma cache_evicts_on_1002nd :
  let st := detect_all 0 (nth_email <$> seq 0 1002) (fresh 0) in
  (cache (self st)).*1 = nth_email <$> seq 1 1001.
Proof.
  intros st. unfold st. clear st.
  pose proof detect_all_1001_keys as Hkeys.
  change 1002 with (1001 + 1). rewrite seq_app, fmap_app, detect_all_app.
  set (st1 := detect_all 0 (nth_email <$> seq 0 1001) (fresh 0)) in *.
  clearbody st1.
  assert (length (cache (self st1)) = 1001) as Hlen.
  { by rewrite <-(length_fmap fst), Hkeys, length_fmap, length_seq. }
  change (nth_email <$> seq (0 + 1001) 1) with [nth_email 1001].
  change (detect_all 0 [nth_email 1001] st1)
    with (detect_from_email 0 (nth_email 1001) st1).2.
  rewrite detect_evicts_earliest; [|rewrite Hkeys|exact Hlen].
  - rewrite Hkeys.
    change (seq 0 1001) with (0 :: seq 1 1000).
    change (seq 1 1001) with (seq 1 (1000 + 1)).
    rewrite seq_app, fmap_app. reflexivity.
  - intros (n & Hn & Hin%elem_of_seq)%list_elem_of_fmap.
    apply (inj nth_email) in Hn. lia.
Qed.

(** *** Substrings and keywords *)

Lemma contains_prefix kw d : kw `prefix_of` d → contains kw d = true.
Proof.
  intros Hpre. destruct d; cbn [contains]; apply orb_true_iff; left;
    by apply bool_decide_eq_true.
Qed.

Lemma contains_occurs kw d : contains kw d = true ↔ Spec.occurs kw d.
Proof.
  split.
  - induction d as [|a d IH]; cbn [contains].
    + rewrite orb_false_r. unfold startswith.
      intros [post ->]%bool_decide_eq_true. by exists [], post.
    + unfold startswith at 1.
      intros [[post ->]%bool_decide_eq_true|(pre & post & ->)%IH]%orb_true_iff.
      * by exists [], post.
      * by exists (a :: pre), post.
  - intros (pre & post & ->).
    induction pre as [|a pre IH].
    + apply contains_prefix. by exists post.
    + cbn [app contains]. apply orb_true_iff. by right.
Qed.

Lemma mentions_existsb words d :
  Spec.mentions words d ↔ existsb (λ kw, contains kw d) words = true.
Proof.
  unfold Spec.mentions. rewrite Exists_exists, existsb_exists.
  split; intros (kw & Hin & Hkw); exists kw.
  - split; [by apply list_elem_of_In|by apply contains_occurs].
  - split; [by apply list_elem_of_In|by apply contains_occurs].
Qed.

Lemma not_mentions_existsb words d :
  ¬ Spec.mentions words d ↔ existsb (λ kw, contains kw d) words = false.
Proof. rewrite mentions_existsb. by destruct (existsb _ _). Qed.

Lemma infer_industry_existsb d :
  _infer_industry d =
    let any := existsb (λ kw, contains kw d) in
    if any Spec.finance_words then Some (u "Financial Services")
    else if any Spec.technology_words then Some (u "Technology")
    else if any Spec.health_words then Some (u "Healthcare")
    else if any Spec.consulting_words then Some (u "Consulting")
    else if any Spec.legal_words then Some (u "Legal Services")
    else None.
Proof.
  unfold _infer_industry. cbn [existsb fmap list_fmap Spec.finance_words
    Spec.technology_words Spec.health_words Spec.consulting_words
    Spec.legal_words].
  by rewrite !orb_false_r, !orb_assoc.
Qed.

(** The industry of the code is the one the keyword groups of the
    specification give. *)
Lemma infer_industry_keywords d : Spec.keyword_industry d (_infer_industry d).
Proof.
  rewrite infer_industry_existsb. cbv zeta.
  destruct (existsb _ Spec.finance_words) eqn:H1.
  { constructor 1. by apply mentions_existsb. }
  destruct (existsb _ Spec.technology_words) eqn:H2.
  { constructor 2; [by apply not_mentions_existsb|by apply mentions_existsb]. }
  destruct (existsb _ Spec.health_words) eqn:H3.
  { constructor 3; [|by apply mentions_existsb].
    apply not_mentions_existsb. by rewrite existsb_app, H1, H2. }
  destruct (existsb _ Spec.consulting_words) eqn:H4.
  { constructor 4; [|by apply mentions_existsb].
    apply not_mentions_existsb. by rewrite !existsb_app, H1, H2, H3. }
  destruct (existsb _ Spec.legal_words) eqn:H5.
  { constructor 5; [|by apply mentions_existsb].
    apply not_mentions_existsb. by rewrite !existsb_app, H1, H2, H3, H4. }
  constructor 6.
  apply not_mentions_existsb. by rewrite !existsb_app, H1, H2, H3, H4, H5.
Qed.

(** *** The regular expressions against the specification's stripping *)

Lemma sub_prefix_strip d :
  Re.sub_prefix [u "www."; u "mail."; u "email."] d = Spec.strip_prefixes d.
Proof.
  unfold Re.sub_prefix, Spec.strip_prefixes. cbn [list_find].
  destruct (decide (u "www." `prefix_of` d)) as [H1|H1].
  { by rewrite bool_decide_true. }
  rewrite (bool_decide_false _ H1).
  destruct (decide (u "mail." `prefix_of` d)) as [H2|H2].
  { by rewrite bool_decide_true. }
  rewrite (bool_decide_false _ H2).
  destruct (decide (u "email." `prefix_of` d)) as [H3|H3].
  { by rewrite bool_decide_true. }
  by rewrite (bool_decide_false _ H3).
Qed.

(** On text without a newline [$] is the end of the text, so a literal
    alternative matches there exactly when it is all that is left. *)
Lemma match_alt_lit l t :
  10%N ∉ t →
  Re.match_alt (Re.Lit l) t = if decide (t = l) then Some [] else None.
Proof.
  intros Hnl. cbn [Re.match_alt]. unfold startswith, Re.at_end.
  destruct (decide (l `prefix_of` t)) as [[k ->]|Hpre].
  - rewrite bool_decide_true by by exists k.
    rewrite drop_app_length.
    destruct k as [|a k].
    + rewrite app_nil_r, decide_True by done. by rewrite bool_decide_true.
    + rewrite (bool_decide_false (a :: k = [])) by done.
      rewrite decide_False.
      2:{ intros Heq. apply (f_equal length) in Heq.
          rewrite length_app in Heq. simpl in Heq. lia. }
      destruct (decide (a :: k = [10%N])) as [[= -> ->]|Hk].
      { exfalso. apply Hnl. apply elem_of_app. right. left. }
      by rewrite (bool_decide_false _ Hk).
  - rewrite (bool_decide_false _ Hpre). cbn [andb].
    rewrite decide_False; [done|]. by intros ->.
Qed.

Lemma first_match_lits ls t :
  10%N ∉ t →
  Re.first_match (Re.Lit <$> ls) t = if decide (t ∈ ls) then Some [] else None.
Proof.
  intros Hnl. induction ls as [|l ls IH]; [done|].
  cbn [fmap list_fmap Re.first_match].
  change (list_fmap _ _ Re.Lit ls) with (Re.Lit <$> ls).
  rewrite IH, match_alt_lit by done.
  destruct (decide (t = l)) as [->|Hne].
  - by rewrite decide_True by left.
  - destruct (decide (t ∈ ls)) as [Hin|Hin].
    + by rewrite decide_True by by right.
    + rewrite decide_False; [done|]. by intros [?|?]%elem_of_cons.
Qed.

Lemma list_find_ext_in {A} (P Q : A → Prop)
    `{!∀ x, Decision (P x)} `{!∀ x, Decision (Q x)} (l : list A) :
  (∀ x, x ∈ l → P x ↔ Q x) → list_find P l = list_find Q l.
Proof.
  induction l as [|a l IH]; intros Hext; [done|].
  cbn [list_find].
  assert (list_find P l = list_find Q l) as ->.
  { apply IH. intros x Hx. apply Hext. by right. }
  destruct (decide (P a)) as [Hp|Hp], (decide (Q a)) as [Hq|Hq]; try done.
  - destruct Hq. apply Hext; [left|done].
  - destruct Hp. apply Hext; [left|done].
Qed.

Lemma sub_suffix_strip_tld ls d :
  Spec.suffix_free ls →
  10%N ∉ d →
  Re.sub_suffix (Re.Lit <$> ls) d = Spec.strip_tld ls d.
Proof.
  intros Hfree. induction d as [|c d IH]; intros Hnl.
  - unfold Spec.strip_tld. cbn [Re.sub_suffix Re.match_here].
    destruct (list_find _ ls) as [[i t]|] eqn:Hfind; [|done].
    apply list_find_Some in Hfind as (_ & Hsuf & _).
    by apply suffix_nil_inv in Hsuf.
  - apply not_elem_of_cons in Hnl as [Hc Hnl].
    cbn [Re.sub_suffix Re.match_here].
    destruct (decide (c = chr "." ∧ d ∈ ls)) as [[-> Hin]|Hno].
    + rewrite N.eqb_refl, first_match_lits by done.
      rewrite decide_True by done.
      unfold Spec.strip_tld.
      destruct (list_find_elem_of (λ t, (chr "." :: t) `suffix_of` (chr "." :: d))
                  ls d Hin) as [[i t] Hfind]; [done|].
      rewrite Hfind. apply list_find_Some in Hfind as (Ht%list_elem_of_lookup_2 & Hsuf & _).
      assert (t = d) as ->.
      { eapply Forall_forall in Hfree; [|exact Ht].
        eapply Forall_forall in Hfree; [|exact Hin]. by apply Hfree. }
      cbn [length]. by rewrite Nat.sub_diag.
    + assert (Re.match_here (Re.Lit <$> ls) (c :: d) = None) as Hhere.
      { cbn [Re.match_here]. destruct (c =? chr ".")%N eqn:Hdot; [|done].
        apply N.eqb_eq in Hdot. rewrite first_match_lits by done.
        rewrite decide_False; [done|]. intros Hin. by apply Hno. }
      cbn [Re.match_here] in Hhere. rewrite Hhere, IH by done.
      unfold Spec.strip_tld.
      rewrite (list_find_ext_in
                 (λ t, (chr "." :: t) `suffix_of` (c :: d))
                 (λ t, (chr "." :: t) `suffix_of` d)).
      * destruct (list_find _ ls) as [[i t]|] eqn:Hfind; [|done].
        apply list_find_Some in Hfind as (_ & Hsuf & _).
        apply suffix_length in Hsuf. cbn [length] in *.
        replace (S (length d) - S (length t)) with (S (length d - S (length t)))
          by lia.
        done.
      * intros t Ht. split.
        -- intros [[= <- <-]|Hsuf]%suffix_cons_inv; [|done].
           destruct Hno. by split.
        -- apply suffix_cons_r.
Qed.

Lemma suffix_free_tlds : Spec.suffix_free Spec.tlds.
Proof. apply (bool_decide_unpack _). vm_compute. reflexivity. Qed.

Lemma suffix_free_country_tlds : Spec.suffix_free Spec.country_tlds.
Proof. apply (bool_decide_unpack _). vm_compute. reflexivity. Qed.

Lemma strip_prefixes_subseteq d : Spec.strip_prefixes d ⊆ d.
Proof.
  unfold Spec.strip_prefixes.
  repeat (destruct (bool_decide _); [apply subseteq_drop|]). done.
Qed.

Lemma strip_tld_subseteq ls d : Spec.strip_tld ls d ⊆ d.
Proof.
  unfold Spec.strip_tld.
  destruct (list_find _ ls) as [[i t]|]; [apply subseteq_take|done].
Qed.

(** The name the code extracts is the guess of the specification. *)
Lemma extract_company_guessed domain :
  10%N ∉ domain →
  _extract_company_from_domain domain = Ok (Spec.guessed_company domain).
Proof.
  intros Hnl. unfold _extract_company_from_domain, Spec.guessed_company.
  rewrite sub_prefix_strip.
  rewrite !(list_fmap_compose u Re.Lit).
  change (u <$> ["com"; "org"; "net"; "co"; "io"; "ai"; "tech"; "inc"]%string)
    with Spec.tlds.
  change (u <$> ["co.uk"; "com.au"; "co.in"]%string) with Spec.country_tlds.
  assert (10%N ∉ Spec.strip_prefixes domain) as Hnl1.
  { intros Hin. by apply Hnl, (strip_prefixes_subseteq domain). }
  rewrite (sub_suffix_strip_tld Spec.tlds) by auto using suffix_free_tlds.
  assert (10%N ∉ Spec.strip_tld Spec.tlds (Spec.strip_prefixes domain)) as Hnl2.
  { intros Hin. by apply Hnl1, (strip_tld_subseteq Spec.tlds). }
  rewrite (sub_suffix_strip_tld Spec.country_tlds)
    by auto using suffix_free_country_tlds.
  by destruct (Spec.strip_tld Spec.country_tlds _) as [|c [|c' rest]].
Qed.

Lemma domain_char_ge c : Re.is_domain_char c = true → (45 ≤ c)%N.
Proof.
  unfold Re.is_domain_char, in_range.
  rewrite !orb_true_iff, !andb_true_iff, !N.leb_le, !N.eqb_eq.
  change (chr "a") with 97%N. change (chr "z") with 122%N.
  change (chr "A") with 65%N. change (chr "Z") with 90%N.
  change (chr "0") with 48%N. change (chr "9") with 57%N.
  change (chr ".") with 46%N. change (chr "-") with 45%N.
  lia.
Qed.

(** The lower-cased domain holds no newline. *)
Lemma lower_domain_no_newline group1 :
  Forall (λ c, Re.is_domain_char c = true) group1 → 10%N ∉ lower group1.
Proof.
  intros Hdom (c & Hc & Hin)%list_elem_of_fmap.
  eapply Forall_forall in Hdom; [|exact Hin].
  apply domain_char_ge in Hdom. unfold lower_char in Hc.
  destruct (in_range _ _ c); lia.
Qed.

(** C5.  When the lower-cased domain of the e-mail is no personal provider,
    meets neither the educational nor the government condition and is not in
    the table of known corporate domains, the result is of type
    ['corporate']; its company is the domain with a prefix [www.], [mail.] or
    [email.] and the known TLD suffixes stripped and its first letter
    capitalised, or [None] when fewer than two characters remain; its
    confidence is 0.6 with a company and 0.2 without; its website is the
    domain with a company and [None] without; its industry is the one of the
    first keyword group a word of which occurs in the domain, or [None]. *)
Theorem detect_fallback_guess st t email group1 domain :
  reachable st →
  Re.search_domain email = Some group1 →
  domain = lower group1 →
  domain ∉ personal_providers →
  is_educational domain = false →
  is_government domain = false →
  corporate_info !! domain = None →
  ∃ o st',
    detect_from_email t email st = (Ok o, st') ∧
    type (value o) = u "corporate" ∧
    company (value o) = Spec.guessed_company domain ∧
    confidence (value o) =
      (if Spec.guessed_company domain is Some _ then Float 0.6 else Float 0.2) ∧
    website (value o) =
      (if Spec.guessed_company domain is Some _ then Some domain else None) ∧
    Spec.keyword_industry domain (industry (value o)).
Proof.
  intros Hst Hsearch -> Hpers Hedu Hgov Hcorp.
  destruct (detect_returns_classify st t email Hst) as (o & st' & Hrun & Hcl).
  exists o, st'. split; [done|].
  unfold classify in Hcl. rewrite Hsearch in Hcl. cbv zeta in Hcl.
  rewrite bool_decide_false, Hedu, Hgov, Hcorp in Hcl by done.
  rewrite extract_company_guessed in Hcl.
  2:{ apply lower_domain_no_newline. by apply search_domain_Some in Hsearch as (_ & _ & ?). }
  cbn [mbind outcome_bind mret outcome_ret] in Hcl. injection Hcl as <-.
  cbn [type company confidence website industry].
  split_and!.
  - reflexivity.
  - reflexivity.
  - unfold Spec.guessed_company.
    by destruct (Spec.strip_tld Spec.country_tlds _) as [|c [|c' rest]].
  - unfold Spec.guessed_company.
    by destruct (Spec.strip_tld Spec.country_tlds _) as [|c [|c' rest]].
  - apply infer_industry_keywords.
Qed.

Lemma detect_fallback_guess_witness :
  let email := u "jane@myunknownstartup.io" in
  let domain := u "myunknownstartup.io" in
  ∃ o st',
    detect_from_email 0 email (fresh 0) = (Ok o, st') ∧
    type (value o) = u "corporate" ∧
    company (value o) = Some (u "Myunknownstartup") ∧
    confidence (value o) = Float 0.6 ∧
    website (value o) = Some domain ∧
    Spec.keyword_industry domain (industry (value o)).
Proof.
  intros email domain.
  assert (domain ∉ personal_providers) as Hpers.
  { apply (bool_decide_unpack _). vm_compute. reflexivity. }
  exact (detect_fallback_guess (fresh 0) 0 email domain domain
           (reachable_fresh 0) eq_refl eq_refl Hpers eq_refl eq_refl eq_refl).
Defined.

(** The same call, evaluated. *)
Example detect_jane :
  (detect_from_email 0 (u "jane@myunknownstartup.io") (fresh 0)).1 =
    Ok {| oid := 0;
          value := {| company := Some (u "Myunknownstartup");
                      type := u "corporate";
                      confidence := Float 0.6;
                      industry := None;
                      website := Some (u "myunknownstartup.io");
                      metadata := None |} |}.
Proof. vm_compute. reflexivity. Qed.

(** The other addresses the specification lists, evaluated. *)
Example detect_gmail :
  (detect_from_email 0 (u "user@gmail.com") (fresh 0)).1 =
    Ok {| oid := 0;
          value := {| company := Some (u "Gmail");
                      type := u "personal";
                      confidence := Float 1.0;
                      industry := None;
                      website := None;
                      metadata := Some {[ u "provider" := u "gmail.com" ]} |} |}.
Proof. vm_compute. reflexivity. Qed.

Example detect_stanford :
  (detect_from_email 0 (u "student@stanford.edu") (fresh 0)).1 =
    Ok {| oid := 0;
          value := {| company := Some (u "Stanford University");
                      type := u "educational";
                      confidence := Float 0.9;
                      industry := Some (u "Education");
                      website := Some (u "stanford.edu");
                      metadata := None |} |}.
Proof. vm_compute. reflexivity. Qed.

Example detect_microsoft :
  (detect_from_email 0 (u "person@microsoft.com") (fresh 0)).1 =
    Ok {| oid := 0;
          value := {| company := Some (u "Microsoft");
                      type := u "corporate";
                      confidence := Float 0.8;
                      industry := Some (u "Technology");
                      website := Some (u "microsoft.com");
                      metadata := None |} |}.
Proof. vm_compute. reflexivity. Qed.

End DetectorFacts.

(** ** email/resend_service.py *)

Module ResendFacts.
Import PyStr Resend.

Section provider.
Variable Emails_send : gmap str value → outcome exception (gmap str str).

Ltac prog_step :=
  cbv beta iota zeta delta
    [mbind prog_bind update read lift mret prog_ret try_except
     resend_Emails_send logger_error].

(** C10.  Without content ([html] and [text] both [None] or empty)
    [send_email] returns the failure "Either HTML or text content is
    required"; the provider is not called, nothing is logged and the service
    object is as before: the state after the call is the state before it. *)
Theorem send_email_requires_content
    to subject html text from_email reply_to attachments tags w :
  html = None ∨ html = Some [] →
  text = None ∨ text = Some [] →
  send_email Emails_send to subject html text from_email reply_to attachments tags w =
    (Ok {| success := false; message_id := None;
           error := Some (u "Either HTML or text content is required") |},
     w).
Proof. by intros [-> | ->] [-> | ->]. Qed.

(** C8.  [send_email] never raises.  Either there is no content, and the
    provider is not called; or the provider is called once, with the
    recipients, the subject and the bodies it was given, and then a response
    gives [success=True] with the response's ["id"] as message id, while an
    exception is caught, logged and turned into [success=False] with
    [str(e)] as error. *)
Theorem send_email_catches
    to subject html text from_email reply_to attachments tags w :
  ∃ r w',
    send_email Emails_send to subject html text from_email reply_to attachments tags w
      = (Ok r, w') ∧
    service w' = service w ∧
    ((truthy html = false ∧ truthy text = false ∧ w' = w ∧
      r = {| success := false; message_id := None;
             error := Some (u "Either HTML or text content is required") |}) ∨
     (∃ params,
        (truthy html = true ∨ truthy text = true) ∧
        requests w' = requests w ++ [params] ∧
        params !! u "to" =
          Some (VList (VStr <$> match to with One a => [a] | Many l => l end)) ∧
        params !! u "subject" = Some (VStr subject) ∧
        params !! u "html" = (if truthy html then VStr <$> html else None) ∧
        params !! u "text" = (if truthy text then VStr <$> text else None) ∧
        match Emails_send params with
        | Ok response =>
            r = {| success := true; message_id := response !! u "id";
                   error := None |} ∧
            log w' = log w
        | Raise e =>
            r = {| success := false; message_id := None;
                   error := Some (message e) |} ∧
            log w' = log w ++ [u "Failed to send email: " ++ message e]
        end)).
Proof.
  unfold send_email. prog_step.
  destruct (truthy html) eqn:Hhtml, (truthy text) eqn:Htext; cbn [negb andb].
  4:{ do 2 eexists. split; [reflexivity|]. split; [done|]. by left. }
  all: match goal with
       | |- context [Emails_send ?p] => set (params := p)
       end.
  all: assert (params !! u "to" =
                 Some (VList (VStr <$> match to with One a => [a] | Many l => l end)) ∧
               params !! u "subject" = Some (VStr subject) ∧
               params !! u "html" = (if truthy html then VStr <$> html else None) ∧
               params !! u "text" = (if truthy text then VStr <$> text else None))
         as (Hto & Hsubject & Hh & Ht);
       [unfold params; rewrite Hhtml, Htext;
        destruct (truthy reply_to), (truthy_dict tags), (truthy_list attachments);
        destruct html as [[|? ?]|], text as [[|? ?]|]; try discriminate;
        split_and!; reflexivity|].
  all: rewrite Hhtml in Hh; rewrite Htext in Ht; clearbody params.
  all: destruct (Emails_send params) as [response|e] eqn:Hsend.
  all: do 2 eexists; (split; [reflexivity|]); (split; [done|]); right;
       exists params; rewrite Hsend; by split_and!; auto.
Qed.

End provider.

Lemma send_email_requires_content_witness :
  let down (_ : gmap str value) : outcome exception (gmap str str) :=
    Raise {| message := u "connection refused" |} in
  let w := {| service := {| api_key := u "re_123"; from_email := u "noreply@yourdomain.com" |};
              requests := []; log := [] |} in
  send_email down (One (u "jane@myunknownstartup.io")) (u "Hello")
    None (Some []) None None None None w =
    (Ok {| success := false; message_id := None;
           error := Some (u "Either HTML or text content is required") |},
     w).
Proof.
  intros down w.
  apply (send_email_requires_content down); [by left|by right].
Defined.

End ResendFacts.

(** ** supabase_auth/magic_link_old.py *)

Module MagicLinkFacts.
Import PyStr MagicLink.

(** *** Splitting on a separator *)

Lemma split_sep_nonempty sep s : ∃ w ws, split_sep sep s = w :: ws.
Proof.
  induction s as [|c s (w & ws & IH)]; cbn [split_sep]; [by eauto|].
  destruct (c =? sep)%N; [by eauto|]. rewrite IH. by eauto.
Qed.

Lemma join_cons_cons sep a b l :
  join sep (a :: b :: l) = a ++ sep ++ join sep (b :: l).
Proof. reflexivity. Qed.

(** Joining the pieces with the separator gives the text back. *)
Lemma join_split_sep sep s : join [sep] (split_sep sep s) = s.
Proof.
  induction s as [|c s IH]; [done|]. cbn [split_sep].
  destruct (split_sep_nonempty sep s) as (w & ws & Hs).
  rewrite Hs in *.
  destruct (c =? sep)%N eqn:Hc.
  - apply N.eqb_eq in Hc as ->. by rewrite join_cons_cons, IH.
  - rewrite <-IH. by destruct ws.
Qed.

(** The first piece holds no separator. *)
Lemma split_sep_head sep s w ws : split_sep sep s = w :: ws → sep ∉ w.
Proof.
  revert w ws. induction s as [|c s IH]; intros w ws; cbn [split_sep].
  - intros [= <- <-]. apply not_elem_of_nil.
  - destruct (c =? sep)%N eqn:Hc.
    + intros [= <- <-]. apply not_elem_of_nil.
    + destruct (split_sep_nonempty sep s) as (w' & ws' & Hs). rewrite Hs.
      intros [= <- <-]. apply not_elem_of_cons. split.
      * apply N.eqb_neq in Hc. congruence.
      * by eapply IH.
Qed.

(** The two expressions of [update_profile] cut the name at its first
    space. *)
Lemma name_parts_first_space s :
  let name_parts := split_sep (chr " ") s in
  Spec.split_at_first_space s
    (match name_parts with w :: _ => w | [] => [] end)
    (if decide (1 < length name_parts) then join (u " ") (drop 1 name_parts) else []).
Proof.
  cbv zeta.
  destruct (split_sep_nonempty (chr " ") s) as (w & ws & Hs).
  pose proof (split_sep_head _ _ _ _ Hs) as Hw.
  pose proof (join_split_sep (chr " ") s) as Hjoin.
  rewrite Hs in *. destruct ws as [|w' ws].
  - left. cbn [join] in Hjoin. subst w. done.
  - right. split; [done|]. rewrite decide_True by (simpl; lia).
    rewrite <-Hjoin. done.
Qed.

(** C9.  For a user that exists and an [updates] with a string under
    ["name"], on a database whose calls go through, [update_profile] returns
    and stores a profile whose first name is the text before the first space
    of the stripped name and whose last name is everything after that space,
    empty when there is no space. *)
Theorem update_profile_splits_name now user_id updates db i user name :
  query_raises db = false →
  commit_raises db = false →
  refresh_raises db = false →
  list_find (λ r, auth_user_id r = user_id) (users db) = Some (i, user) →
  updates !! u "name" = Some (VStr name) →
  ∃ p db' first last,
    update_profile now user_id updates db =
      (Ok {| success := true; profile := Some p; error := None |}, db') ∧
    users db' !! i = Some p ∧
    first_name p = Some first ∧
    last_name p = Some last ∧
    Spec.split_at_first_space (strip name) first last.
Proof.
  intros Hq Hc Hr Hfind Hname.
  assert (i < length (users db)) as Hi.
  { apply list_find_Some in Hfind as (Hi%lookup_lt_Some & _). done. }
  unfold update_profile, try_except, query_first, commit, refresh, rollback.
  cbv beta iota zeta delta [mbind prog_bind outcome_bind lift mret prog_ret].
  rewrite Hq, Hfind, Hname. cbn [name_parts_of]. rewrite Hc.
  cbn [users set_users commit_raises refresh_raises query_raises].
  rewrite Hr, list_lookup_insert_eq by done. cbn [from_option].
  do 4 eexists. split; [reflexivity|]. cbn [users set_users].
  split; [by apply list_lookup_insert_eq|].
  cbn [first_name last_name set_updated_at set_first_name set_last_name].
  split; [reflexivity|]. split; [reflexivity|].
  apply name_parts_first_space.
Qed.

Lemma update_profile_splits_name_witness :
  let user := {| email := u "mary@example.com"; auth_user_id := u "uid-1";
                 first_name := None; last_name := None;
                 created_at := 0; updated_at := 0 |} in
  let db := {| users := [user]; query_raises := false;
               commit_raises := false; refresh_raises := false |} in
  let updates : gmap str value := {[ u "name" := VStr (u "  Mary Ann Smith ") ]} in
  ∃ p db' first last,
    update_profile 7 (u "uid-1") updates db =
      (Ok {| success := true; profile := Some p; error := None |}, db') ∧
    users db' !! 0 = Some p ∧
    first_name p = Some first ∧
    last_name p = Some last ∧
    Spec.split_at_first_space (strip (u "  Mary Ann Smith ")) first last.
Proof.
  intros user db updates.
  exact (update_profile_splits_name 7 (u "uid-1") updates db 0 user
           (u "  Mary Ann Smith ") eq_refl eq_refl eq_refl eq_refl eq_refl).
Defined.

(** The same call, evaluated. *)
Example update_profile_mary :
  let user := {| email := u "mary@example.com"; auth_user_id := u "uid-1";
                 first_name := None; last_name := None;
                 created_at := 0; updated_at := 0 |} in
  let db := {| users := [user]; query_raises := false;
               commit_raises := false; refresh_raises := false |} in
  (update_profile 7 (u "uid-1") {[ u "name" := VStr (u "  Mary Ann Smith ") ]} db).1 =
    Ok {| success := true;
          profile := Some {| email := u "mary@example.com"; auth_user_id := u "uid-1";
                             first_name := Some (u "Mary");
                             last_name := Some (u "Ann Smith");
                             created_at := 0; updated_at := 7 |};
          error := None |}.
Proof. vm_compute. reflexivity. Qed.

End MagicLinkFacts.

(** ** More on company_detection/detector.py *)

Module DetectorMore.
Import PyStr PyDict Detector PyDictFacts DetectorFacts.



(** X2.  When the cache holds 1001 entries, a call with an e-mail that is
    not cached drops the entry that was inserted first and appends the new
    one; the other entries keep their order. *)
Theorem full_cache_evicts_earliest t email st :
  email ∉ (cache (self st)).*1 →
  length (cache (self st)) = 1001 →
  (cache (self (detect_from_email t email st).2)).*1 =
    drop 1 (cache (self st)).*1 ++ [email].
Proof. apply detect_evicts_earliest. Qed.

Lemma full_cache_evicts_earliest_witness :
  let st := detect_all 0 (nth_email <$> seq 0 1001) (fresh 0) in
  (nth_email 1001 ∉ (cache (self st)).*1) ∧
  length (cache (self st)) = 1001 ∧
  (cache (self (detect_from_email 0 (nth_email 1001) st).2)).*1 =
    drop 1 (cache (self st)).*1 ++ [nth_email 1001].
Proof.
  intros st. pose proof detect_all_1001_keys as Hkeys. fold st in Hkeys.
  clearbody st.
  assert (nth_email 1001 ∉ (cache (self st)).*1) as Hnew.
  { rewrite Hkeys. intros (n & Hn & Hin%elem_of_seq)%list_elem_of_fmap.
    apply nth_email_inj in Hn. lia. }
  assert (length (cache (self st)) = 1001) as Hlen.
  { by rewrite <-(length_fmap fst), Hkeys, length_fmap, length_seq. }
  split; [exact Hnew|]. split; [exact Hlen|].
  exact (full_cache_evicts_earliest 0 (nth_email 1001) st Hnew Hlen).
Defined.

(** X3.  While the cache holds at most 1000 entries, a call with an e-mail
    that is not cached appends it and evicts nothing. *)
Theorem cache_appends_below_limit t email st :
  email ∉ (cache (self st)).*1 →
  length (cache (self st)) ≤ 1000 →
  (cache (self (detect_from_email t email st).2)).*1 =
    (cache (self st)).*1 ++ [email].
Proof.
  intros Hmiss Hlen.
  destruct (detect_miss_run t email st) as (r & _ & ->).
  { by apply dict_contains_false. }
  cbn [snd self cache].
  rewrite decide_False by lia.
  by rewrite dict_setitem_absent, fmap_app.
Qed.

Lemma cache_appends_below_limit_witness :
  let email := u "person@microsoft.com" in
  (email ∉ (cache (self (fresh 0))).*1) ∧
  length (cache (self (fresh 0))) ≤ 1000 ∧
  (cache (self (detect_from_email 0 email (fresh 0)).2)).*1 = [email].
Proof.
  intros email.
  assert (email ∉ (cache (self (fresh 0))).*1) as Hnew by apply not_elem_of_nil.
  assert (length (cache (self (fresh 0))) ≤ 1000) as Hlen by (cbn; lia).
  split; [exact Hnew|]. split; [exact Hlen|].
  exact (cache_appends_below_limit 0 email (fresh 0) Hnew Hlen).
Defined.

(** X4.  Every call of [detect_from_email] adds exactly one to
    [total_detections]; it adds one to [cache_hits] when the e-mail was
    cached and leaves [cache_hits] alone otherwise. *)
Theorem detect_counts_every_call t email st :
  let st' := (detect_from_email t email st).2 in
  total_detections (metrics (self st')) =
    (total_detections (metrics (self st)) + 1)%Z ∧
  cache_hits (metrics (self st')) =
    (cache_hits (metrics (self st)) +
     if dict_contains email (cache (self st)) then 1 else 0)%Z.
Proof.
  cbv zeta. destruct (dict_contains email (cache (self st))) eqn:Hc.
  - destruct (detect_hit t email st Hc) as (o & _ & ->). by split.
  - destruct (detect_miss_run t email st Hc) as (r & _ & ->).
    cbn [snd self metrics cache_hits total_detections]. split; [done|lia].
Qed.



(** X6.  What [detect_from_email] returns for an e-mail does not depend on
    the calls made before: in any two states a service can reach, the
    results for the same e-mail have the same fields. *)
Theorem detect_history_independent st1 st2 t1 t2 email :
  reachable st1 →
  reachable st2 →
  ∃ o1 o2 st1' st2',
    detect_from_email t1 email st1 = (Ok o1, st1') ∧
    detect_from_email t2 email st2 = (Ok o2, st2') ∧
    value o1 = value o2.
Proof.
  intros H1 H2.
  destruct (detect_returns_classify st1 t1 email H1) as (o1 & st1' & Hrun1 & Hcl1).
  destruct (detect_returns_classify st2 t2 email H2) as (o2 & st2' & Hrun2 & Hcl2).
  exists o1, o2, st1', st2'. split_and!; [done..|]. congruence.
Qed.

Lemma detect_history_independent_witness :
  let email := u "student@stanford.edu" in
  let st2 := (detect_from_email 0 (u "user@gmail.com") (fresh 5)).2 in
  reachable (fresh 0) ∧
  reachable st2 ∧
  ∃ o1 o2 st1' st2',
    detect_from_email 0 email (fresh 0) = (Ok o1, st1') ∧
    detect_from_email 0 email st2 = (Ok o2, st2') ∧
    value o1 = value o2.
Proof.
  intros email st2.
  assert (reachable st2) as H2.
  { eapply reachable_detect; [apply (reachable_fresh 5)|]. apply surjective_pairing. }
  split; [constructor|]. split; [exact H2|].
  exact (detect_history_independent (fresh 0) st2 0 0 email (reachable_fresh 0) H2).
Defined.

(** X7.  After [clear_cache] every e-mail is looked up anew: the next call
    builds a new object, leaves [cache_hits] alone and makes the e-mail the
    only entry of the cache. *)
Theorem detect_after_clear_misses st t email :
  let st0 := (clear_cache st).2 in
  ∃ o st',
    detect_from_email t email st0 = (Ok o, st') ∧
    oid o = next_id st ∧
    cache_hits (metrics (self st')) = cache_hits (metrics (self st)) ∧
    (cache (self st')).*1 = [email].
Proof.
  cbv zeta. unfold clear_cache. prog_step. cbn [snd].
  match goal with |- context [detect_from_email t email ?s] => set (st0 := s) end.
  destruct (detect_miss_run t email st0) as (r & _ & ->); [done|].
  do 2 eexists. split; [reflexivity|]. by split_and!.
Qed.

(** X8.  After a call that misses the cache, the metric [cache_size] is the
    number of entries the cache held before the call: it is written before
    the eviction and the insertion. *)
Theorem cache_size_metric_lags t email st :
  dict_contains email (cache (self st)) = false →
  cache_size (metrics (self (detect_from_email t email st).2)) =
    Z.of_nat (length (cache (self st))).
Proof.
  intros Hc. by destruct (detect_miss_run t email st Hc) as (r & _ & ->).
Qed.

Lemma cache_size_metric_lags_witness :
  let email := u "person@microsoft.com" in
  let st' := (detect_from_email 0 email (fresh 0)).2 in
  dict_contains email (cache (self (fresh 0))) = false ∧
  cache_size (metrics (self st')) = 0%Z ∧
  length (cache (self st')) = 1.
Proof.
  intros email st'. split; [reflexivity|]. split.
  - exact (cache_size_metric_lags 0 email (fresh 0) eq_refl).
  - vm_compute. reflexivity.
Defined.

(** *** The domain pattern *)

Lemma run_split cls s :
  ∃ post,
    s = Re.run cls s ++ post ∧
    ∀ c, head post = Some c → cls c = false.
Proof.
  induction s as [|a s (post & Hs & Hpost)]; cbn [Re.run].
  - by exists [].
  - destruct (cls a) eqn:Ha.
    + exists post. split; [|done]. cbn [app]. by rewrite <-Hs.
    + exists (a :: s). split; [done|]. by intros c [= <-].
Qed.

Lemma run_all cls d post :
  Forall (λ c, cls c = true) d →
  (∀ c, head post = Some c → cls c = false) →
  Re.run cls (d ++ post) = d.
Proof.
  intros Hd Hpost. induction Hd as [|a d Ha _ IH]; cbn [app Re.run].
  - destruct post as [|c post]; [done|]. cbn [Re.run]. by rewrite Hpost.
  - by rewrite Ha, IH.
Qed.

(** X9.  The domain [detect_from_email] works on is the longest run of
    domain characters after the first ['@'] that a domain character
    follows: [search_domain] answers [d] exactly when the e-mail reads
    [pre @ d post] with no ['@'] followed by a domain character inside
    [pre], [d] a non-empty run of domain characters, and [post] not
    starting with a domain character. *)
Theorem search_domain_leftmost_longest email d :
  Re.search_domain email = Some d ↔
  ∃ pre post,
    email = pre ++ chr "@" :: d ++ post ∧
    ¬ Spec.has_domain pre ∧
    d ≠ [] ∧
    Forall (λ c, Re.is_domain_char c = true) d ∧
    ∀ c, head post = Some c → Re.is_domain_char c = false.
Proof.
  split.
  - revert d. induction email as [|a email IH]; intros d; [done|].
    cbn [Re.search_domain].
    assert (Re.search_domain email = Some d →
            a ≠ chr "@" ∨ Re.run Re.is_domain_char email = [] →
            ∃ pre post,
              a :: email = pre ++ chr "@" :: d ++ post ∧
              ¬ Spec.has_domain pre ∧ d ≠ [] ∧
              Forall (λ c, Re.is_domain_char c = true) d ∧
              ∀ c, head post = Some c → Re.is_domain_char c = false) as Hrest.
    { intros (pre & post & -> & Hpre & Hd & Hdom & Hpost)%IH Ha.
      exists (a :: pre), post. split_and!; try done.
      intros (p & c & q & Heq & Hc).
      destruct p as [|b p].
      - cbn [app] in Heq. injection Heq as -> ->.
        destruct Ha as [Ha|Ha]; [done|].
        cbn [app Re.run] in Ha. by rewrite Hc in Ha.
      - cbn [app] in Heq. injection Heq as _ ->.
        apply Hpre. by exists p, c, q. }
    destruct (a =? chr "@")%N eqn:Ha.
    + apply N.eqb_eq in Ha as ->.
      destruct (Re.run Re.is_domain_char email) as [|c d'] eqn:Hrun.
      * intros Hs. apply Hrest; [done|]. by right.
      * intros [= <-].
        destruct (run_split Re.is_domain_char email) as (post & Hemail & Hpost).
        exists [], post. rewrite Hrun in Hemail. split_and!; try done.
        -- cbn [app]. by rewrite Hemail.
        -- by intros ([|??] & ? & ? & ? & ?).
        -- rewrite <-Hrun. apply run_domain_chars.
    + intros Hs. apply Hrest; [done|]. left.
      by apply N.eqb_neq in Ha.
  - intros (pre & post & -> & Hpre & Hd & Hdom & Hpost).
    induction pre as [|a pre IH].
    + cbn [app Re.search_domain]. rewrite N.eqb_refl, run_all by done.
      by destruct d.
    + cbn [app Re.search_domain].
      assert (¬ Spec.has_domain pre) as Hpre'.
      { intros (p & c & q & -> & Hc). apply Hpre. by exists (a :: p), c, q. }
      destruct (a =? chr "@")%N eqn:Ha; [|by apply IH].
      apply N.eqb_eq in Ha as ->.
      destruct (Re.run Re.is_domain_char (pre ++ chr "@" :: d ++ post))
        as [|c r] eqn:Hrun; [by apply IH|].
      exfalso. apply Hpre.
      destruct pre as [|c' pre'].
      * cbn [app Re.run] in Hrun. by destruct (Re.is_domain_char (chr "@")) eqn:E.
      * cbn [app Re.run] in Hrun.
        destruct (Re.is_domain_char c') eqn:Hc'; [|done].
        by exists [], c', pre'.
Qed.

(** *** The table of known corporate domains *)

Lemma corporate_info_not_shadowed :
  map_Forall (λ domain _,
    (domain ∉ personal_providers) ∧
    is_educational domain = false ∧
    is_government domain = false) corporate_info.
Proof.
  apply map_Forall_to_list.
  apply (bool_decide_unpack _). vm_compute. reflexivity.
Qed.

(** X10.  No entry of [corporate_info] is shadowed by an earlier rule: for
    an e-mail whose domain, lower-cased, is a key of the table, the result
    is of type ['corporate'] with confidence 0.8, the company and industry
    of the entry, and the lower-cased domain as website. *)
Theorem detect_known_corporate st t email group1 info :
  reachable st →
  Re.search_domain email = Some group1 →
  corporate_info !! lower group1 = Some info →
  ∃ o st' name,
    detect_from_email t email st = (Ok o, st') ∧
    info !! u "name" = Some name ∧
    company (value o) = Some name ∧
    industry (value o) = info !! u "industry" ∧
    type (value o) = u "corporate" ∧
    confidence (value o) = Float 0.8 ∧
    website (value o) = Some (lower group1).
Proof.
  intros Hst Hsearch Hinfo.
  destruct (detect_returns_classify st t email Hst) as (o & st' & Hrun & Hcl).
  destruct (corporate_info_not_shadowed _ _ Hinfo) as (Hpers & Hedu & Hgov).
  destruct (corporate_info_names _ _ Hinfo) as [name Hname].
  exists o, st', name. split; [done|]. split; [done|].
  unfold classify in Hcl. rewrite Hsearch in Hcl. cbv zeta in Hcl.
  rewrite bool_decide_false, Hedu, Hgov, Hinfo, Hname in Hcl by done.
  cbn [from_option mbind outcome_bind mret outcome_ret] in Hcl.
  injection Hcl as <-. by split_and!.
Qed.

Lemma detect_known_corporate_witness :
  let email := u "Jo@IBM.com" in
  reachable (fresh 0) ∧
  ∃ o st',
    detect_from_email 0 email (fresh 0) = (Ok o, st') ∧
    company (value o) = Some (u "IBM") ∧
    industry (value o) = Some (u "Technology") ∧
    type (value o) = u "corporate" ∧
    confidence (value o) = Float 0.8 ∧
    website (value o) = Some (u "ibm.com").
Proof.
  intros email. split; [constructor|].
  destruct (detect_known_corporate (fresh 0) 0 email (u "IBM.com")
              (info "IBM" "Technology") (reachable_fresh 0) eq_refl eq_refl)
    as (o & st' & name & Hrun & Hname & Hco & Hind & Hty & Hconf & Hweb).
  exists o, st'. split; [exact Hrun|].
  rewrite Hco, Hind, Hty, Hconf, Hweb.
  injection Hname as <-. by split_and!.
Defined.

(** *** [get_health] *)

Section health.
Variable float_of_int : Z → float.


End health.

End DetectorMore.

(** ** More on supabase_auth/magic_link_old.py *)

Module ProfilesFacts.
Import PyStr MagicLink Profiles.

Ltac db_step :=
  cbv beta iota zeta delta
    [mbind prog_bind outcome_bind lift mret prog_ret outcome_ret try_except
     query_first commit refresh rollback add_commit].

(** X12.  For a user id without a row, [update_profile] answers "User not
    found" and leaves the database as it was. *)
Theorem update_profile_unknown_user now user_id updates db :
  query_raises db = false →
  list_find (λ r, auth_user_id r = user_id) (users db) = None →
  update_profile now user_id updates db =
    (Ok {| success := false; profile := None;
           error := Some (u "User not found") |}, db).
Proof.
  intros Hq Hfind. unfold update_profile. db_step. by rewrite Hq, Hfind.
Qed.

Lemma update_profile_unknown_user_witness :
  let db := {| users := []; query_raises := false;
               commit_raises := false; refresh_raises := false |} in
  update_profile 7 (u "uid-1") {[ u "name" := VStr (u "Mary Smith") ]} db =
    (Ok {| success := false; profile := None;
           error := Some (u "User not found") |}, db).
Proof.
  intros db.
  exact (update_profile_unknown_user 7 (u "uid-1")
           {[ u "name" := VStr (u "Mary Smith") ]} db eq_refl eq_refl).
Defined.

(** The row [update_profile] writes when the name is a string or absent. *)
Lemma update_profile_run now user_id updates db i user :
  query_raises db = false →
  commit_raises db = false →
  refresh_raises db = false →
  list_find (λ r, auth_user_id r = user_id) (users db) = Some (i, user) →
  (updates !! u "name" = None ∨ ∃ name, updates !! u "name" = Some (VStr name)) →
  ∃ p,
    update_profile now user_id updates db =
      (Ok {| success := true; profile := Some p; error := None |},
       set_users (<[i := p]> (users db)) db) ∧
    email p = email user ∧
    auth_user_id p = auth_user_id user ∧
    created_at p = created_at user ∧
    updated_at p = now ∧
    (updates !! u "name" = None →
     first_name p = first_name user ∧ last_name p = last_name user).
Proof.
  intros Hq Hc Hr Hfind Hname.
  assert (i < length (users db)) as Hi.
  { apply list_find_Some in Hfind as (Hi%lookup_lt_Some & _). done. }
  unfold update_profile. db_step. rewrite Hq, Hfind.
  destruct Hname as [Hname|[name Hname]]; rewrite Hname.
  - rewrite Hc. cbn [users set_users commit_raises refresh_raises query_raises].
    rewrite Hr, list_lookup_insert_eq by done. cbn [from_option].
    eexists. split; [reflexivity|]. by split_and!.
  - cbn [name_parts_of]. rewrite Hc.
    cbn [users set_users commit_raises refresh_raises query_raises].
    rewrite Hr, list_lookup_insert_eq by done. cbn [from_option].
    eexists. split; [reflexivity|]. by split_and!.
Qed.

(** X13.  A successful [update_profile] changes one row only, the one of the
    user: the other rows stay, and in that row the e-mail, the auth user id
    and the creation time stay, while [updated_at] becomes the time of the
    call. *)
Theorem update_profile_frame now user_id updates db i user :
  query_raises db = false →
  commit_raises db = false →
  refresh_raises db = false →
  list_find (λ r, auth_user_id r = user_id) (users db) = Some (i, user) →
  (updates !! u "name" = None ∨ ∃ name, updates !! u "name" = Some (VStr name)) →
  ∃ p db',
    update_profile now user_id updates db =
      (Ok {| success := true; profile := Some p; error := None |}, db') ∧
    length (users db') = length (users db) ∧
    users db' !! i = Some p ∧
    (∀ j, j ≠ i → users db' !! j = users db !! j) ∧
    email p = email user ∧
    auth_user_id p = auth_user_id user ∧
    created_at p = created_at user ∧
    updated_at p = now.
Proof.
  intros Hq Hc Hr Hfind Hname.
  assert (i < length (users db)) as Hi.
  { apply list_find_Some in Hfind as (Hi%lookup_lt_Some & _). done. }
  destruct (update_profile_run now user_id updates db i user)
    as (p & Hrun & ? & ? & ? & ? & _); [done..|].
  exists p, (set_users (<[i := p]> (users db)) db).
  split; [done|]. cbn [users set_users]. split_and!; try done.
  - apply length_insert.
  - by apply list_lookup_insert_eq.
  - intros j Hj. by apply list_lookup_insert_ne.
Qed.

Lemma update_profile_frame_witness :
  let mary := {| email := u "mary@example.com"; auth_user_id := u "uid-1";
                 first_name := None; last_name := None;
                 created_at := 1; updated_at := 1 |} in
  let bob := {| email := u "bob@example.com"; auth_user_id := u "uid-2";
                first_name := Some (u "Bob"); last_name := Some [];
                created_at := 2; updated_at := 2 |} in
  let db := {| users := [bob; mary]; query_raises := false;
               commit_raises := false; refresh_raises := false |} in
  ∃ p db',
    update_profile 7 (u "uid-1") {[ u "name" := VStr (u "Mary Smith") ]} db =
      (Ok {| success := true; profile := Some p; error := None |}, db') ∧
    length (users db') = 2 ∧
    users db' !! 1 = Some p ∧
    (∀ j, j ≠ 1 → users db' !! j = users db !! j) ∧
    email p = u "mary@example.com" ∧
    auth_user_id p = u "uid-1" ∧
    created_at p = 1%Z ∧
    updated_at p = 7%Z.
Proof.
  intros mary bob db.
  apply (update_profile_frame 7 (u "uid-1")
           {[ u "name" := VStr (u "Mary Smith") ]} db 1 mary);
    [reflexivity..|].
  right. exists (u "Mary Smith"). reflexivity.
Defined.

(** X14.  Without a ["name"] key (with a ["company"] key only, say) a
    successful [update_profile] keeps the first and the last name: the
    company is accepted and dropped, only [updated_at] moves. *)
Theorem update_profile_without_name now user_id updates db i user :
  query_raises db = false →
  commit_raises db = false →
  refresh_raises db = false →
  list_find (λ r, auth_user_id r = user_id) (users db) = Some (i, user) →
  updates !! u "name" = None →
  ∃ db',
    update_profile now user_id updates db =
      (Ok {| success := true;
             profile := Some (set_updated_at now user);
             error := None |}, db') ∧
    users db' = <[i := set_updated_at now user]> (users db).
Proof.
  intros Hq Hc Hr Hfind Hname.
  assert (i < length (users db)) as Hi.
  { apply list_find_Some in Hfind as (Hi%lookup_lt_Some & _). done. }
  unfold update_profile. db_step. rewrite Hq, Hfind, Hname, Hc.
  cbn [users set_users commit_raises refresh_raises query_raises].
  rewrite Hr, list_lookup_insert_eq by done. cbn [from_option].
  by eexists.
Qed.

Lemma update_profile_without_name_witness :
  let mary := {| email := u "mary@example.com"; auth_user_id := u "uid-1";
                 first_name := Some (u "Mary"); last_name := Some (u "Smith");
                 created_at := 1; updated_at := 1 |} in
  let db := {| users := [mary]; query_raises := false;
               commit_raises := false; refresh_raises := false |} in
  ∃ db',
    update_profile 7 (u "uid-1") {[ u "company" := VStr (u "Acme") ]} db =
      (Ok {| success := true;
             profile := Some (set_updated_at 7 mary);
             error := None |}, db') ∧
    users db' = [set_updated_at 7 mary].
Proof.
  intros mary db.
  exact (update_profile_without_name 7 (u "uid-1")
           {[ u "company" := VStr (u "Acme") ]} db 0 mary
           eq_refl eq_refl eq_refl eq_refl eq_refl).
Defined.


(** *** [get_or_create_profile] *)

(** X16.  For a user that has a row, [get_or_create_profile] returns that
    row with [is_new = False] and writes nothing. *)
Theorem get_or_create_existing now1 now2 user_id email metadata db i user :
  query_raises db = false →
  list_find (λ r, auth_user_id r = user_id) (users db) = Some (i, user) →
  get_or_create_profile now1 now2 user_id email metadata db =
    (Ok {| ok := true; found := Some user; is_new := Some false;
           failure := None |}, db).
Proof.
  intros Hq Hfind. unfold get_or_create_profile. db_step.
  by rewrite Hq, Hfind.
Qed.

Lemma get_or_create_existing_witness :
  let mary := {| email := u "mary@example.com"; auth_user_id := u "uid-1";
                 first_name := Some (u "Mary"); last_name := Some (u "Smith");
                 created_at := 1; updated_at := 1 |} in
  let db := {| users := [mary]; query_raises := false;
               commit_raises := true; refresh_raises := true |} in
  get_or_create_profile 8 9 (u "uid-1") (u "other@example.com") None db =
    (Ok {| ok := true; found := Some mary; is_new := Some false;
           failure := None |}, db).
Proof.
  intros mary db.
  exact (get_or_create_existing 8 9 (u "uid-1") (u "other@example.com") None
           db 0 mary eq_refl eq_refl).
Defined.

Lemma list_find_app_new {A} (P : A → Prop) `{!∀ x, Decision (P x)} l x :
  list_find P l = None → P x → list_find P (l ++ [x]) = Some (length l, x).
Proof.
  intros Hnone Hx. apply list_find_Some. split_and!.
  - by rewrite lookup_app_r, Nat.sub_diag.
  - done.
  - intros j y Hj Hlt. rewrite lookup_app_l in Hj by done.
    apply list_find_None in Hnone.
    eapply Forall_forall in Hnone; [done|]. by eapply list_elem_of_lookup_2.
Qed.

(** X17.  [get_or_create_profile] creates at most one row per user: for a
    user without a row, on a database whose calls go through and with
    metadata whose names are strings or absent, it appends one row with the
    given id, e-mail and names and answers [is_new = True]; called again,
    with whatever e-mail and metadata, it returns that same row with
    [is_new = False] and appends nothing. *)
Theorem get_or_create_once now1 now2 user_id email metadata first last db :
  query_raises db = false →
  commit_raises db = false →
  refresh_raises db = false →
  list_find (λ r, auth_user_id r = user_id) (users db) = None →
  metadata_get metadata (u "first_name") = Ok first →
  metadata_get metadata (u "last_name") = Ok last →
  ∃ p db',
    get_or_create_profile now1 now2 user_id email metadata db =
      (Ok {| ok := true; found := Some p; is_new := Some true;
             failure := None |}, db') ∧
    users db' = users db ++ [p] ∧
    auth_user_id p = user_id ∧
    MagicLink.email p = email ∧
    first_name p = first ∧
    last_name p = last ∧
    ∀ now3 now4 email' metadata',
      get_or_create_profile now3 now4 user_id email' metadata' db' =
        (Ok {| ok := true; found := Some p; is_new := Some false;
               failure := None |}, db').
Proof.
  intros Hq Hc Hr Hfind Hfirst Hlast.
  unfold get_or_create_profile at 1. db_step.
  rewrite Hq, Hfind, Hfirst, Hlast, Hc.
  cbn [users set_users refresh_raises]. rewrite Hr.
  rewrite lookup_app_r, Nat.sub_diag by done. cbn [lookup from_option].
  do 2 eexists. split; [reflexivity|]. cbn [users set_users].
  split_and!; [done..|].
  intros now3 now4 email' metadata'.
  apply (get_or_create_existing _ _ _ _ _ _ (length (users db))); [done|].
  cbn [users set_users]. by apply list_find_app_new.
Qed.

Lemma get_or_create_once_witness :
  let db := {| users := []; query_raises := false;
               commit_raises := false; refresh_raises := false |} in
  let metadata : option (gmap str value) :=
    Some {[ u "first_name" := VStr (u "Mary"); u "source" := VStr (u "ai_assessment") ]} in
  ∃ p db',
    get_or_create_profile 8 9 (u "uid-1") (u "mary@example.com") metadata db =
      (Ok {| ok := true; found := Some p; is_new := Some true;
             failure := None |}, db') ∧
    users db' = [p] ∧
    auth_user_id p = u "uid-1" ∧
    MagicLink.email p = u "mary@example.com" ∧
    first_name p = Some (u "Mary") ∧
    last_name p = None ∧
    ∀ now3 now4 email' metadata',
      get_or_create_profile now3 now4 (u "uid-1") email' metadata' db' =
        (Ok {| ok := true; found := Some p; is_new := Some false;
               failure := None |}, db').
Proof.
  intros db metadata.
  exact (get_or_create_once 8 9 (u "uid-1") (u "mary@example.com") metadata
           (Some (u "Mary")) None db
           eq_refl eq_refl eq_refl eq_refl eq_refl eq_refl).
Defined.

(** *** [is_profile_complete] after [update_profile] *)

Lemma lstrip_head s c r : lstrip s = c :: r → is_space c = false.
Proof.
  induction s as [|a s IH]; cbn [lstrip]; [done|].
  destruct (is_space a) eqn:Ha; [done|]. by intros [= <- _].
Qed.

Lemma lstrip_suffix s : lstrip s `suffix_of` s.
Proof.
  induction s as [|a s IH]; cbn [lstrip]; [done|].
  destruct (is_space a); [by apply suffix_cons_r|done].
Qed.

(** What [strip] leaves does not start with a space character. *)
Lemma strip_head s c r : strip s = c :: r → is_space c = false.
Proof.
  unfold strip, rstrip. intros Hs.
  destruct (lstrip_suffix (rev (lstrip s))) as [k Hk].
  apply (f_equal (@rev N)) in Hk. rewrite rev_involutive, rev_app_distr, Hs in Hk.
  by eapply lstrip_head.
Qed.

Lemma split_sep_first sep c r :
  c ≠ sep → ∃ w ws, split_sep sep (c :: r) = (c :: w) :: ws.
Proof.
  intros Hc. cbn [split_sep].
  rewrite (proj2 (N.eqb_neq c sep)) by done.
  destruct (split_sep sep r); by eauto.
Qed.

Lemma list_find_insert_same {A} (P : A → Prop) `{!∀ x, Decision (P x)} l i x y :
  list_find P l = Some (i, x) → P y → list_find P (<[i := y]> l) = Some (i, y).
Proof.
  intros (Hi & _ & Hbefore)%list_find_Some Hy.
  apply list_find_Some. split_and!; [|done|].
  - apply list_lookup_insert_eq. by eapply lookup_lt_Some.
  - intros j z Hj Hlt. rewrite list_lookup_insert_ne in Hj by lia. eauto.
Qed.

(** X18.  After [update_profile] has stored a name that is not blank for a
    user whose e-mail is not empty, [is_profile_complete] answers [True]
    for that user. *)
Theorem profile_complete_after_name now user_id updates db i user name :
  query_raises db = false →
  commit_raises db = false →
  refresh_raises db = false →
  list_find (λ r, auth_user_id r = user_id) (users db) = Some (i, user) →
  updates !! u "name" = Some (VStr name) →
  strip name ≠ [] →
  email user ≠ [] →
  ∃ r db',
    update_profile now user_id updates db = (Ok r, db') ∧
    MagicLink.success r = true ∧
    is_profile_complete user_id db' = (Ok true, db').
Proof.
  intros Hq Hc Hr Hfind Hname Hstrip Hemail.
  assert (i < length (users db)) as Hi.
  { apply list_find_Some in Hfind as (Hi%lookup_lt_Some & _). done. }
  assert (auth_user_id user = user_id) as Hid.
  { by apply list_find_Some in Hfind as (_ & ? & _). }
  destruct (strip name) as [|c r] eqn:Hs; [done|].
  assert (c ≠ chr " ") as Hspace.
  { intros ->. by apply strip_head in Hs. }
  destruct (split_sep_first (chr " ") c r Hspace) as (w & ws & Hparts).
  unfold update_profile. db_step. rewrite Hq, Hfind, Hname.
  cbn [name_parts_of]. rewrite Hs, Hparts, Hc.
  cbn [users set_users commit_raises refresh_raises query_raises].
  rewrite Hr, list_lookup_insert_eq by done. cbn [from_option].
  do 2 eexists. split; [reflexivity|]. split; [reflexivity|].
  unfold is_profile_complete. db_step. cbn [query_raises users set_users].
  rewrite Hq.
  erewrite list_find_insert_same; [|exact Hfind|done].
  cbn [first_name email set_updated_at set_first_name set_last_name truthy].
  by rewrite bool_decide_false.
Qed.

Lemma profile_complete_after_name_witness :
  let mary := {| email := u "mary@example.com"; auth_user_id := u "uid-1";
                 first_name := None; last_name := None;
                 created_at := 1; updated_at := 1 |} in
  let db := {| users := [mary]; query_raises := false;
               commit_raises := false; refresh_raises := false |} in
  is_profile_complete (u "uid-1") db = (Ok false, db) ∧
  ∃ r db',
    update_profile 7 (u "uid-1") {[ u "name" := VStr (u " Mary ") ]} db = (Ok r, db') ∧
    MagicLink.success r = true ∧
    is_profile_complete (u "uid-1") db' = (Ok true, db').
Proof.
  intros mary db. split; [reflexivity|].
  apply (profile_complete_after_name 7 (u "uid-1")
           {[ u "name" := VStr (u " Mary ") ]} db 0 mary (u " Mary "));
    try reflexivity.
  - vm_compute. discriminate.
  - vm_compute. discriminate.
Defined.

End ProfilesFacts.

(** ** More on email/resend_service.py *)

Module ResendMoreFacts.
Import PyStr Resend ResendMore.

(** X19.  A [ResendService] is constructed only with a key that is not
    empty: the argument when it is given and not empty, else the
    environment's [RESEND_API_KEY]; with neither, the constructor raises
    "Resend API key is required".  The sender is the environment's
    [RESEND_FROM_EMAIL], else [noreply@yourdomain.com]. *)
Theorem init_requires_key api_key env :
  match init api_key env with
  | Ok s =>
      Resend.api_key s ≠ [] ∧
      (if truthy api_key then api_key = Some (Resend.api_key s)
       else env !! u "RESEND_API_KEY" = Some (Resend.api_key s)) ∧
      Resend.from_email s =
        default (u "noreply@yourdomain.com") (env !! u "RESEND_FROM_EMAIL")
  | Raise e =>
      message e = u "Resend API key is required" ∧
      truthy api_key = false ∧
      truthy (env !! u "RESEND_API_KEY") = false
  end.
Proof.
  unfold init.
  destruct api_key as [[|c k]|]; cbn [truthy];
    try (destruct (env !! u "RESEND_API_KEY") as [[|c k]|]); cbn [truthy negb];
    by split_and!.
Qed.

Section provider.
Variable Emails_send : gmap str value → outcome exception (gmap str str).

Ltac run_send :=
  cbv beta iota zeta delta
    [send_email mbind prog_bind update read lift mret prog_ret try_except
     resend_Emails_send logger_error].



(** The request of a [send_email] call with both bodies, to one recipient
    and without sender or reply-to address. *)
Lemma send_email_request to subject h t attachments tags w :
  h ≠ [] →
  t ≠ [] →
  ∃ params r w',
    send_email Emails_send (One to) subject (Some h) (Some t) None None
      attachments tags w = (Ok r, w') ∧
    requests w' = requests w ++ [params] ∧
    service w' = service w ∧
    params !! u "from" = Some (VStr (Resend.from_email (service w))) ∧
    params !! u "to" = Some (VList [VStr to]) ∧
    params !! u "subject" = Some (VStr subject) ∧
    params !! u "html" = Some (VStr h) ∧
    params !! u "text" = Some (VStr t) ∧
    params !! u "reply_to" = None ∧
    params !! u "tags" =
      (if truthy_dict tags then Some (VDict (VStr <$> default ∅ tags)) else None) ∧
    params !! u "attachments" =
      (if truthy_list attachments
       then Some (VList (attachment_dict <$> default [] attachments)) else None) ∧
    match Emails_send params with
    | Ok response =>
        r = {| success := true; message_id := response !! u "id"; error := None |}
    | Raise e =>
        r = {| success := false; message_id := None; error := Some (message e) |}
    end.
Proof.
  intros Hh Ht. destruct h as [|ch h]; [done|]. destruct t as [|ct t]; [done|].
  run_send. cbn [truthy negb andb default].
  match goal with
  | |- context [Emails_send ?p] => set (params := p)
  end.
  assert (params !! u "from" = Some (VStr (Resend.from_email (service w))) ∧
          params !! u "to" = Some (VList [VStr to]) ∧
          params !! u "subject" = Some (VStr subject) ∧
          params !! u "html" = Some (VStr (ch :: h)) ∧
          params !! u "text" = Some (VStr (ct :: t)) ∧
          params !! u "reply_to" = None ∧
          params !! u "tags" =
            (if truthy_dict tags then Some (VDict (VStr <$> default ∅ tags)) else None) ∧
          params !! u "attachments" =
            (if truthy_list attachments
             then Some (VList (attachment_dict <$> default [] attachments)) else None))
    as Hparams.
  { unfold params. destruct (truthy_dict tags), (truthy_list attachments);
      split_and!; reflexivity. }
  clearbody params. destruct Hparams as (? & ? & ? & ? & ? & ? & ? & ?).
  destruct (Emails_send params) as [response|e] eqn:Hsend.
  all: do 3 eexists; (split; [reflexivity|]); cbn [requests service];
       rewrite ?Hsend; by split_and!.
Qed.

Lemma occurs_here (x rest : str) : Spec.occurs x (x ++ rest).
Proof. by exists [], rest. Qed.

Lemma occurs_skip (x a rest : str) : Spec.occurs x rest → Spec.occurs x (a ++ rest).
Proof. intros (pre & post & ->). exists (a ++ pre), post. by rewrite <-app_assoc. Qed.

Ltac find_occurrence :=
  repeat first [apply occurs_here | apply occurs_skip].

(** X21.  [send_magic_link] always reaches the provider: it makes exactly
    one request, to the one recipient, with the subject "Your secure login
    link", both bodies, and the tags [type=magic_link] and [app=aiden];
    the link is part of both bodies as it was given; the result is the
    provider's. *)
Theorem send_magic_link_request to name magic_link company w :
  ∃ params r w' h t,
    send_magic_link Emails_send to name magic_link company w = (Ok r, w') ∧
    requests w' = requests w ++ [params] ∧
    params !! u "to" = Some (VList [VStr to]) ∧
    params !! u "subject" = Some (VStr (u "Your secure login link")) ∧
    params !! u "html" = Some (VStr h) ∧
    params !! u "text" = Some (VStr t) ∧
    params !! u "tags" =
      Some (VDict {[ u "type" := VStr (u "magic_link");
                     u "app" := VStr (u "aiden") ]}) ∧
    params !! u "attachments" = None ∧
    Spec.occurs magic_link h ∧
    Spec.occurs magic_link t ∧
    Spec.occurs name h ∧
    match Emails_send params with
    | Ok response =>
        r = {| success := true; message_id := response !! u "id"; error := None |}
    | Raise e =>
        r = {| success := false; message_id := None; error := Some (message e) |}
    end.
Proof.
  unfold send_magic_link. cbv zeta.
  destruct (send_email_request to send_magic_link_subject
              (send_magic_link_html name magic_link company)
              (send_magic_link_text name magic_link company)
              None (Some {[ u "type" := u "magic_link"; u "app" := u "aiden" ]}) w)
    as (params & r & w' & Hrun & Hreq & _ & _ & Hto & Hsubj & Hh & Ht & _ & Htags & Hatt & Hres);
    [done..|].
  exists params, r, w', (send_magic_link_html name magic_link company),
    (send_magic_link_text name magic_link company).
  split_and!; try done.
  - unfold send_magic_link_html. find_occurrence.
  - unfold send_magic_link_text. find_occurrence.
  - unfold send_magic_link_html. find_occurrence.
Qed.

(** X22.  [send_completion_email] always reaches the provider: it makes
    exactly one request, with the subject "Your <completion_type> Results",
    the tags [type=completion] and [completion_type], and an attachment
    list that holds the attachment exactly when one is given; a results URL
    that is given is part of both bodies; the result is the provider's. *)
Theorem send_completion_email_request
    to name completion_type results_url attachment w :
  ∃ params r w' h t,
    send_completion_email Emails_send to name completion_type results_url
      attachment w = (Ok r, w') ∧
    requests w' = requests w ++ [params] ∧
    params !! u "to" = Some (VList [VStr to]) ∧
    params !! u "subject" =
      Some (VStr (u "Your " ++ completion_type ++ u " Results")) ∧
    params !! u "html" = Some (VStr h) ∧
    params !! u "text" = Some (VStr t) ∧
    params !! u "tags" =
      Some (VDict {[ u "type" := VStr (u "completion");
                     u "completion_type" := VStr completion_type ]}) ∧
    params !! u "attachments" =
      (λ a, VList [attachment_dict a]) <$> attachment ∧
    (∀ url, results_url = Some url → url ≠ [] →
            Spec.occurs url h ∧ Spec.occurs url t) ∧
    match Emails_send params with
    | Ok response =>
        r = {| success := true; message_id := response !! u "id"; error := None |}
    | Raise e =>
        r = {| success := false; message_id := None; error := Some (message e) |}
    end.
Proof.
  unfold send_completion_email. cbv zeta.
  match goal with
  | |- context [send_email _ _ _ _ _ _ _ ?atts ?tags] =>
      destruct (send_email_request to
                  (send_completion_email_subject completion_type)
                  (send_completion_email_html name completion_type results_url)
                  (send_completion_email_text name completion_type results_url)
                  atts tags w)
        as (params & r & w' & Hrun & Hreq & _ & _ & Hto & Hsubj & Hh & Ht & _
            & Htags & Hatt & Hres); [done..|]
  end.
  exists params, r, w', (send_completion_email_html name completion_type results_url),
    (send_completion_email_text name completion_type results_url).
  assert (params !! u "tags" =
            Some (VDict {[ u "type" := VStr (u "completion");
                           u "completion_type" := VStr completion_type ]}))
    as Htags'.
  { rewrite Htags. cbn [truthy_dict from_option].
    rewrite bool_decide_false; [|apply insert_non_empty]. cbn [negb].
    unfold id. by rewrite fmap_insert, map_fmap_singleton. }
  assert (params !! u "attachments" = (λ a, VList [attachment_dict a]) <$> attachment)
    as Hatt'.
  { rewrite Hatt. by destruct attachment. }
  assert (∀ url, results_url = Some url → url ≠ [] →
            Spec.occurs url (send_completion_email_html name completion_type results_url) ∧
            Spec.occurs url (send_completion_email_text name completion_type results_url))
    as Hurl.
  { intros [|c url] -> Hurl; [done|].
    unfold send_completion_email_html, send_completion_email_text.
    cbn [truthy from_option]. unfold id.
    split; rewrite <-?app_assoc; find_occurrence. }
  by split_and!.
Qed.

End provider.

End ResendMoreFacts.
